(** * Theme controller of the election-map portal (JS/theme.js)

    A shallow embedding of the script: the page (the body and the
    elements inside it, in document order with their nesting depth, each
    with id, class attribute, data-theme attribute and text),
    localStorage with its two ways of throwing, the three optional
    window hooks, the click listeners the script registers and the
    bubbling of a click from its target through the ancestors to the
    document.  Effects are threaded through a state-and-exception monad,
    so that [try { ... } catch (e) {}] is a combinator and "no exception
    escapes" is a statement about the returned completion. *)

From Stdlib Require Import Ascii.
From stdpp Require Import base option list gmap strings pretty.

(** ** JavaScript values that reach the script *)

(** [opt.dataset.theme] is a string, or [undefined] when the element has
    no data-theme attribute. *)
Inductive JSValue :=
  | JUndefined
  | JString (s : string).

#[global] Instance JSValue_eq_dec : EqDecision JSValue.
Proof. solve_decision. Defined.

(** String conversion, as done by [className = v] and [setItem(k, v)]. *)
Definition ToString (v : JSValue) : string :=
  match v with
  | JUndefined => "undefined"
  | JString s => s
  end.

(** [a === b] *)
Definition strict_eq (a b : JSValue) : bool := bool_decide (a = b).

(** [v || d] for [v] a string or [null]: [null] and the empty string are
    falsy, every other string is truthy. *)
Definition js_or (v : option string) (d : string) : string :=
  match v with
  | Some s => if bool_decide (s = "") then d else s
  | None => d
  end.

(** ** The class attribute and its DOMTokenList *)

Module DOMTokenList.

(** ASCII whitespace: tab, line feed, form feed, carriage return,
    space. *)
Definition is_ws (a : ascii) : bool :=
  bool_decide (a ∈ ["009"; "010"; "012"; "013"; " "]%char).

Fixpoint no_ws (s : string) : bool :=
  match s with
  | EmptyString => true
  | String a s' => negb (is_ws a) && no_ws s'
  end.

(** The pieces between whitespace characters, empty ones included. *)
Fixpoint fields (s : string) : list string :=
  match s with
  | EmptyString => [EmptyString]
  | String a s' =>
      if is_ws a then EmptyString :: fields s'
      else match fields s' with
           | w :: ws => String a w :: ws
           | [] => [String a EmptyString]
           end
  end.

Definition words (s : string) : list string :=
  filter (λ w, w ≠ EmptyString) (fields s).

(** An ordered set: the first occurrence of each token is kept. *)
Fixpoint ordered_set (l : list string) : list string :=
  match l with
  | [] => []
  | x :: l' => x :: filter (λ y, y ≠ x) (ordered_set l')
  end.

(** The ordered set parser: the token set of a class attribute. *)
Definition tokens (cls : string) : list string := ordered_set (words cls).

(** The ordered set serializer. *)
Definition serialize (ts : list string) : string := String.concat " " ts.

(** [classList.contains(tok)] *)
Definition contains (tok : string) (cls : string) : bool :=
  bool_decide (tok ∈ tokens cls).

(** [classList.remove(tok)]: the token leaves the set and the attribute
    is written back from the set, also when the token was not there. *)
Definition remove (tok : string) (cls : string) : string :=
  serialize (filter (λ c, c ≠ tok) (tokens cls)).

(** [classList.toggle(tok)] *)
Definition toggle (tok : string) (cls : string) : string :=
  if contains tok cls then remove tok cls
  else serialize (tokens cls ++ [tok]).

(** [classList.toggle(tok, force)]: the attribute is written back only
    when the set changes. *)
Definition toggle_force (tok : string) (force : bool) (cls : string)
  : string :=
  if contains tok cls
  then if force then cls else remove tok cls
  else if force then serialize (tokens cls ++ [tok]) else cls.

(** A string that can be a class token. *)
Definition is_token (t : string) : Prop := t ≠ EmptyString ∧ no_ws t = true.

End DOMTokenList.

(** ** The page *)

(** [className] is the class attribute (empty when absent); [text] is
    the text that lies directly in the element, its child text nodes
    taken together. *)
Record Element := mkElement {
  el_id : option string;
  className : string;
  data_theme : option string;
  text : string
}.

Definition with_className (f : string → string) (e : Element) : Element :=
  mkElement (el_id e) (f (className e)) (data_theme e) (text e).

Definition with_text (txt : string) (e : Element) : Element :=
  mkElement (el_id e) (className e) (data_theme e) txt.

(** [el.dataset.theme] *)
Definition dataset_theme (e : Element) : JSValue :=
  match data_theme e with
  | Some s => JString s
  | None => JUndefined
  end.

Definition has_id (i : string) (e : Element) : bool :=
  bool_decide (el_id e = Some i).

(** [el.classList.contains(c)], which is also what the selector [.c]
    tests in a standards-mode document. *)
Definition has_class (c : string) (e : Element) : bool :=
  DOMTokenList.contains c (className e).

(** An element inside the body, with its nesting depth below the body
    (a child of the body has depth 1).  [live] tells whether the element
    is still in the document: an element removed from it keeps its
    place in the list, so that the references held by the script stay
    valid, but is no longer found, clicked or counted as an ancestor. *)
Record Slot := mkSlot {
  depth : nat;
  live : bool;
  elem : Element
}.

Definition on_elem (f : Element → Element) (sl : Slot) : Slot :=
  mkSlot (depth sl) (live sl) (f (elem sl)).

Definition kill (sl : Slot) : Slot := mkSlot (depth sl) false (elem sl).

(** The body, which a parsed HTML document always has, and the elements
    inside it in document order.  The parent of an element is the
    nearest live element before it that has a smaller depth, or the body
    when there is none.  The html element and the elements of the head
    are taken to carry no id and no class, and the document is in
    standards mode. *)
Record Document := mkDocument {
  body : Element;
  inner : list Slot
}.

(** All elements in document order; a node reference is a position in
    this list, the body being 0. *)
Definition slots (d : Document) : list Slot :=
  mkSlot 0 true (body d) :: inner d.

Definition element_at (d : Document) (r : nat) : option Element :=
  elem <$> slots d !! r.

Definition is_live (d : Document) (r : nat) : bool :=
  match slots d !! r with
  | Some sl => live sl
  | None => false
  end.

(** Positions, counted from [n], of the items satisfying [p]. *)
Fixpoint positions {A} (p : A → bool) (n : nat) (l : list A) : list nat :=
  match l with
  | [] => []
  | x :: l' => if p x then n :: positions p (S n) l' else positions p (S n) l'
  end.

(** [document.getElementById(i)]: the first element of the document
    with that id, or [null]. *)
Definition getElementById (i : string) (d : Document) : option nat :=
  head (positions (λ sl, live sl && has_id i (elem sl)) 0 (slots d)).

(** [document.querySelectorAll('.' + c)]: a static list, document order. *)
Definition querySelectorAll (c : string) (d : Document) : list nat :=
  positions (λ sl, live sl && has_class c (elem sl)) 0 (slots d).

(** A change of the attributes or the text of the element [r]. *)
Definition update_element (r : nat) (f : Element → Element) (d : Document)
  : Document :=
  match r with
  | 0 => mkDocument (f (body d)) (inner d)
  | S n => mkDocument (body d) (alter (on_elem f) n (inner d))
  end.

(** Walking up from an element of depth [cur]: [before] holds the
    elements before it, nearest first; the result lists the positions in
    [inner] of its ancestors, nearest first. *)
Fixpoint climb (cur : nat) (before : list Slot) : list nat :=
  match before with
  | [] => []
  | sl :: before' =>
      if live sl && (depth sl <? cur)
      then length before' :: climb (depth sl) before'
      else climb cur before'
  end.

(** The ancestors of [r] inside the document, nearest first, the body
    last. *)
Definition ancestors (d : Document) (r : nat) : list nat :=
  match r with
  | 0 => []
  | S n =>
      match inner d !! n with
      | Some sl => (S <$> climb (depth sl) (reverse (take n (inner d)))) ++ [0]
      | None => []
      end
  end.

(** The elements a click on [r] passes through, target first; only an
    element that is in the document can be clicked. *)
Definition click_path (d : Document) (r : nat) : option (list nat) :=
  if is_live d r then Some (r :: ancestors d r) else None.

(** The descendants of an element of depth [dy] are the live elements
    that follow it up to the next live one of depth at most [dy]. *)
Fixpoint kill_below (dy : nat) (after : list Slot) : list Slot :=
  match after with
  | [] => []
  | sl :: after' =>
      if live sl
      then if dy <? depth sl then kill sl :: kill_below dy after' else after
      else sl :: kill_below dy after'
  end.

(** The children of the element [r] leave the document, element
    children with all their descendants. *)
Definition detach_children (r : nat) (d : Document) : Document :=
  match r with
  | 0 => mkDocument (body d) (kill <$> inner d)
  | S n =>
      match inner d !! n with
      | Some sl =>
          mkDocument (body d)
            (take (S n) (inner d)
             ++ kill_below (depth sl) (drop (S n) (inner d)))
      | None => d
      end
  end.

(** [el.textContent = txt] for the element [r]: all its children are
    removed and [txt] is its only text. *)
Definition set_textContent (r : nat) (txt : string) (d : Document)
  : Document :=
  update_element r (with_text txt) (detach_children r d).

(** ** localStorage *)

Inductive Exn :=
  | SecurityError
  | QuotaExceededError.

(** [denied]: storage is disabled for the origin, every access throws.
    [full]: the quota is exhausted, a write throws. *)
Record Storage := mkStorage {
  items : gmap string string;
  denied : bool;
  full : bool
}.

(** ** Listeners and hooks *)

Inductive EventTarget :=
  | TDocument
  | TNode (n : nat).

#[global] Instance EventTarget_eq_dec : EqDecision EventTarget.
Proof. solve_decision. Defined.

(** The four click listeners of the script; each closure captures the
    reference [dropdown] found at initialisation. *)
Inductive Listener :=
  | OnToggleClick (dropdown : nat)
  | OnDocumentClick (dropdown : nat)
  | OnDropdownClick
  | OnOptionClick (dropdown : nat).

Inductive Hook :=
  | recolorMap
  | updatePanel
  | updateAbbrBadge.

#[global] Instance Hook_eq_dec : EqDecision Hook.
Proof. solve_decision. Defined.

Section Controller.

(** State of the page features the hooks belong to (map colours, panel,
    abbreviation badge). *)
Context {World : Type}.

(** Modelled from the spec: the three hooks are functions of other
    scripts of the portal, absent here; the spec describes them as
    zero-argument observers that are called, not owned.  A hook reads
    the page and acts on the state [World] of its own feature; it
    returns normally.  [window.h] holds nothing, such a function, or a
    value for which [typeof] is not ['function']. *)
Inductive GlobalVal :=
  | GUndefined
  | GFunction (f : Document → World → World)
  | GNotFunction.

Record Window := mkWindow {
  w_recolorMap : GlobalVal;
  w_updatePanel : GlobalVal;
  w_updateAbbrBadge : GlobalVal
}.

Definition global (h : Hook) (w : Window) : GlobalVal :=
  match h with
  | recolorMap => w_recolorMap w
  | updatePanel => w_updatePanel w
  | updateAbbrBadge => w_updateAbbrBadge w
  end.

(** [typeof v === 'function'] *)
Definition is_function (v : GlobalVal) : bool :=
  match v with
  | GFunction _ => true
  | _ => false
  end.

(** ** State of a page load *)

Record State := mkState {
  document : Document;
  localStorage : Storage;
  window : Window;
  world : World;
  listeners : list (EventTarget * Listener);
  calls : list Hook;            (* hooks invoked so far, oldest first *)
  year_now : N                  (* [new Date().getFullYear()] *)
}.

Definition with_document (f : Document → Document) (s : State) : State :=
  mkState (f (document s)) (localStorage s) (window s) (world s)
          (listeners s) (calls s) (year_now s).

Definition with_items (f : gmap string string → gmap string string)
  (s : State) : State :=
  mkState (document s)
          (mkStorage (f (items (localStorage s)))
                     (denied (localStorage s)) (full (localStorage s)))
          (window s) (world s) (listeners s) (calls s) (year_now s).

Definition with_listener (l : EventTarget * Listener) (s : State) : State :=
  mkState (document s) (localStorage s) (window s) (world s)
          (listeners s ++ [l]) (calls s) (year_now s).

Definition with_call (h : Hook) (f : Document → World → World) (s : State)
  : State :=
  mkState (document s) (localStorage s) (window s)
          (f (document s) (world s)) (listeners s) (calls s ++ [h])
          (year_now s).

(** ** The monad: state that survives a throw *)

Inductive Completion (A : Type) :=
  | Normal (a : A)
  | Throw (e : Exn).
#[global] Arguments Normal {A} a.
#[global] Arguments Throw {A} e.

Definition M (A : Type) : Type := State → Completion A * State.

Definition ret {A} (a : A) : M A := λ s, (Normal a, s).

Definition bind {A B} (m : M A) (k : A → M B) : M B :=
  λ s, match m s with
       | (Normal a, s') => k a s'
       | (Throw e, s') => (Throw e, s')
       end.

Definition throw {A} (e : Exn) : M A := λ s, (Throw e, s).

(** [try { m } catch (e) { h e }] *)
Definition try_catch {A} (m : M A) (h : Exn → M A) : M A :=
  λ s, match m s with
       | (Normal a, s') => (Normal a, s')
       | (Throw e, s') => h e s'
       end.

Definition gets {A} (f : State → A) : M A := λ s, (Normal (f s), s).

Definition modify (f : State → State) : M unit := λ s, (Normal tt, f s).

Definition exec {A} (m : M A) (s : State) : State := snd (m s).

Definition outcome {A} (m : M A) (s : State) : Completion A := fst (m s).

#[global] Instance M_ret : MRet M := @ret.
#[global] Instance M_bind : MBind M := λ A B k m, bind m k.

(** [l.forEach(f)] *)
Fixpoint forEach {A} (l : list A) (f : A → M unit) : M unit :=
  match l with
  | [] => ret tt
  | x :: l' => f x;; forEach l' f
  end.

(** ** Storage access *)

(** [localStorage.getItem(k)]: the string, or [null]. *)
Definition getItem (k : string) : M (option string) :=
  λ s, if denied (localStorage s) then (Throw SecurityError, s)
       else (Normal (items (localStorage s) !! k), s).

(** [localStorage.setItem(k, v)] *)
Definition setItem (k v : string) : M unit :=
  λ s, if denied (localStorage s) then (Throw SecurityError, s)
       else if full (localStorage s) then (Throw QuotaExceededError, s)
       else (Normal tt, with_items (insert k v) s).

(** ** The script *)

Definition STORAGE_KEY : string := "portal-theme".
Definition DEFAULT : string := "theme-current".

(** [opt.classList.toggle('is-active', opt.dataset.theme === theme)] *)
Definition sync_option (theme : JSValue) (opt : Element) : Element :=
  with_className
    (DOMTokenList.toggle_force "is-active"
       (strict_eq (dataset_theme opt) theme))
    opt.

(** [document.body.className = c] *)
Definition set_body_className (c : string) (d : Document) : Document :=
  update_element 0 (with_className (λ _, c)) d.

Definition applyTheme (theme : JSValue) : M unit :=
  modify (with_document (set_body_className (ToString theme)));;
  opts ← gets (λ s, querySelectorAll "theme-option" (document s));
  forEach opts (λ opt,
    modify (with_document (update_element opt (sync_option theme)))).

(** [if (typeof window.h === 'function') window.h();] *)
Definition call_if_function (h : Hook) : M unit :=
  λ s, match global h (window s) with
       | GFunction f => (Normal tt, with_call h f s)
       | _ => (Normal tt, s)
       end.

Definition setTheme (theme : JSValue) : M unit :=
  try_catch (setItem STORAGE_KEY (ToString theme)) (λ _, ret tt);;
  applyTheme theme;;
  call_if_function recolorMap;;
  call_if_function updatePanel;;
  call_if_function updateAbbrBadge.

(** [saved] is [DEFAULT] unless the assignment in the [try] block is
    reached. *)
Definition loadTheme : M unit :=
  saved ← try_catch
            (v ← getItem STORAGE_KEY; ret (js_or v DEFAULT))
            (λ _, ret DEFAULT);
  applyTheme (JString saved).

(** [target.addEventListener('click', l)] *)
Definition addEventListener (t : EventTarget) (l : Listener) : M unit :=
  modify (with_listener (t, l)).

(** [dropdown.classList.remove('open')] *)
Definition close (dropdown : nat) : M unit :=
  modify (with_document
    (update_element dropdown
       (with_className (DOMTokenList.remove "open")))).

(** The [DOMContentLoaded] handler. *)
Definition init : M unit :=
  loadTheme;;
  toggle ← gets (λ s, getElementById "themeToggle" (document s));
  dropdown ← gets (λ s, getElementById "themeDropdown" (document s));
  match toggle, dropdown with
  | Some toggle, Some dropdown =>
      addEventListener (TNode toggle) (OnToggleClick dropdown);;
      addEventListener TDocument (OnDocumentClick dropdown);;
      addEventListener (TNode dropdown) OnDropdownClick;;
      opts ← gets (λ s, querySelectorAll "theme-option" (document s));
      forEach opts (λ opt,
        addEventListener (TNode opt) (OnOptionClick dropdown));;
      yearEl ← gets (λ s, getElementById "year" (document s));
      match yearEl with
      | Some yearEl =>
          y ← gets year_now;
          modify (with_document (set_textContent yearEl (pretty y)))
      | None => ret tt
      end
  | _, _ => ret tt                      (* return *)
  end.

(** [this.dataset.theme], for [this] the node the listener is on. *)
Definition this_dataset_theme (this : EventTarget) (s : State) : JSValue :=
  match this with
  | TNode n =>
      match element_at (document s) n with
      | Some e => dataset_theme e
      | None => JUndefined
      end
  | TDocument => JUndefined
  end.

(** Body of a listener; the result tells whether it called
    [e.stopPropagation()]. *)
Definition run_listener (l : Listener) (this : EventTarget) : M bool :=
  match l with
  | OnToggleClick dropdown =>
      modify (with_document
        (update_element dropdown
           (with_className (DOMTokenList.toggle "open"))));;
      ret true
  | OnDocumentClick dropdown =>
      close dropdown;; ret false
  | OnDropdownClick =>
      ret true
  | OnOptionClick dropdown =>
      theme ← gets (this_dataset_theme this);
      setTheme theme;;
      close dropdown;;
      ret false
  end.

(** ** Click dispatch *)

Definition listeners_on (t : EventTarget)
  (ls : list (EventTarget * Listener)) : list Listener :=
  (filter (λ tl, tl.1 = t) ls).*2.

(** Run the listeners of one target in registration order.  An exception
    thrown by a listener is reported by the browser and does not reach
    the other listeners; stopping is remembered across them. *)
Fixpoint run_listeners (ls : list Listener) (this : EventTarget) : M bool :=
  match ls with
  | [] => ret false
  | l :: ls' =>
      stop ← try_catch (run_listener l this) (λ _, ret false);
      stop' ← run_listeners ls' this;
      ret (stop || stop')
  end.

Definition fire (t : EventTarget) : M bool :=
  ls ← gets (λ s, listeners_on t (listeners s));
  run_listeners ls t.

(** Bubbling: target first, then its ancestors, until a listener has
    stopped the propagation. *)
Fixpoint propagate (ts : list EventTarget) : M unit :=
  match ts with
  | [] => ret tt
  | t :: ts' =>
      fire t ≫= λ stop : bool,
      if stop then ret tt else propagate ts'
  end.

(** The event travels along [path] and reaches the document last. *)
Definition dispatch (path : list nat) : M unit :=
  propagate (map TNode path ++ [TDocument]).

(** A click on the element [target]. *)
Definition click (target : nat) : M unit :=
  path ← gets (λ s, click_path (document s) target);
  match path with
  | Some path => dispatch path
  | None => ret tt
  end.

End Controller.
(** ** Observations on a state *)

Section Observations.

Context {World : Type}.
Implicit Types (s : @State World) (d : Document) (e : Element).

(** [document.body.className] *)
Definition body_className d : string := className (body d).

(** The dropdown panel shows while it carries the class [open]. *)
Definition dropdown_open (dropdown : nat) s : bool :=
  match element_at (document s) dropdown with
  | Some e => has_class "open" e
  | None => false
  end.

Definition stored_theme s : option string :=
  items (localStorage s) !! STORAGE_KEY.

(** Every element of the document that carries the class [theme-option]
    is marked active exactly when its data-theme is [theme]. *)
Definition options_synced (theme : JSValue) d : Prop :=
  ∀ n e, element_at d n = Some e → is_live d n = true →
         has_class "theme-option" e = true →
         (has_class "is-active" e = true ↔ dataset_theme e = theme).

(** What the selection of the theme [t] is to establish: the store holds
    [t], the body class is [t], the options are marked by [t] and the
    dropdown is closed. *)
Definition selected (t : string) (dropdown : nat) s : Prop :=
  stored_theme s = Some t ∧
  body_className (document s) = t ∧
  options_synced (JString t) (document s) ∧
  dropdown_open dropdown s = false.

(** What [applyTheme] does to one element, once the body has its new
    class. *)
Definition sync_slot (theme : JSValue) (sl : Slot) : Slot :=
  if live sl && has_class "theme-option" (elem sl)
  then on_elem (sync_option theme) sl
  else sl.

(** The page after [applyTheme(theme)], in one step. *)
Definition themed (theme : JSValue) d : Document :=
  mkDocument
    (elem (sync_slot theme
             (mkSlot 0 true (with_className (λ _, ToString theme) (body d)))))
    (sync_slot theme <$> inner d).

(** The class tokens of a class attribute other than the two the script
    switches on and off. *)
Definition steady_tokens (cls : string) : list string :=
  filter (λ c, c ≠ "is-active" ∧ c ≠ "open") (DOMTokenList.tokens cls).

(** The hooks that [setTheme] finds to be functions, in call order. *)
Definition hooks_present (w : @Window World) : list Hook :=
  filter (λ h, is_function (global h w) = true)
         [recolorMap; updatePanel; updateAbbrBadge].

(** Effect of a hook on the feature state, given the page it sees. *)
Definition hook_effect (w : @Window World) d (x : World) (h : Hook) : World :=
  match global h w with
  | GFunction f => f d x
  | _ => x
  end.

(** The value of [saved] when [loadTheme] applies it. *)
Definition saved s : string :=
  if denied (localStorage s) then DEFAULT
  else js_or (items (localStorage s) !! STORAGE_KEY) DEFAULT.

(** [setItem] would not throw. *)
Definition writable s : bool :=
  negb (denied (localStorage s)) && negb (full (localStorage s)).

(** The state after the guarded write of [setTheme]. *)
Definition persisted (theme : JSValue) s : State :=
  if denied (localStorage s) || full (localStorage s) then s
  else with_items (insert STORAGE_KEY (ToString theme)) s.

(** The state after the three guarded hook calls of [setTheme]. *)
Definition notified s : State :=
  foldl (λ s h, match global h (window s) with
                | GFunction f => with_call h f s
                | _ => s
                end)
        s [recolorMap; updatePanel; updateAbbrBadge].

(** The listeners registered by [init] for toggle [tg], dropdown [dd] and
    the theme options [opts]. *)
Definition wiring (tg dd : nat) (opts : list nat)
  : list (EventTarget * Listener) :=
  [(TNode tg, OnToggleClick dd); (TDocument, OnDocumentClick dd);
   (TNode dd, OnDropdownClick)]
  ++ map (λ o, (TNode o, OnOptionClick dd)) opts.

Definition wired (tg dd : nat) (opts : list nat) s : Prop :=
  listeners s = wiring tg dd opts ∧ tg ≠ dd ∧
  is_Some (element_at (document s) dd).

(** The states of a page load: initialisation of the loaded page [s0],
    then any number of clicks. *)
Inductive reachable (s0 : State) : State → Prop :=
  | reach_init : reachable s0 (exec init s0)
  | reach_click s target :
      reachable s0 s → reachable s0 (exec (click target) s).

(** A node that carries none of the script's listeners. *)
Definition plain (tg dd : nat) (opts : list nat) (n : nat) : Prop :=
  n ≠ tg ∧ n ≠ dd ∧ n ∉ opts.

(** The listener bodies run one after the other. *)
Definition replay (fs : list (EventTarget * Listener)) s : State :=
  foldl (λ s tl, exec (run_listener tl.2 tl.1) s) s fs.


(** The marks on the options agree with the body class: some theme
    marks the options, and the body's class tokens, those the script
    switches aside, are the tokens of that theme. *)
Definition marks_agree s : Prop :=
  ∃ theme, options_synced theme (document s) ∧
           steady_tokens (body_className (document s))
           = steady_tokens (ToString theme).

End Observations.

(** ** The dropdown as the specification draws it *)

Inductive Transition :=
  | ToggleClick
  | OutsideClick
  | OptionSelection.

(** Two states, [false] for closed and [true] for open. *)
Definition dropdown_step (tr : Transition) (open : bool) : bool :=
  match tr with
  | ToggleClick => negb open
  | OutsideClick => false
  | OptionSelection => false
  end.

Definition dropdown_run (trs : list Transition) (open : bool) : bool :=
  foldl (λ o tr, dropdown_step tr o) open trs.

(** The transition a listener stands for; the dropdown's own listener
    only stops the propagation. *)
Definition transition_of (l : Listener) : option Transition :=
  match l with
  | OnToggleClick _ => Some ToggleClick
  | OnDocumentClick _ => Some OutsideClick
  | OnDropdownClick => None
  | OnOptionClick _ => Some OptionSelection
  end.

Definition stops (l : Listener) : bool :=
  match l with
  | OnToggleClick _ | OnDropdownClick => true
  | OnDocumentClick _ | OnOptionClick _ => false
  end.

(** The dropdown a listener's closure refers to is [dd]. *)
Definition captures (dd : nat) (l : Listener) : Prop :=
  match l with
  | OnToggleClick d | OnDocumentClick d | OnOptionClick d => d = dd
  | OnDropdownClick => True
  end.

(** The listeners an event fires along its targets, read off the
    registrations alone, each with the target it is fired on. *)
Fixpoint fired_on (ls : list (EventTarget * Listener))
  (ts : list EventTarget) : list (EventTarget * Listener) :=
  match ts with
  | [] => []
  | t :: ts' =>
      let here := listeners_on t ls in
      map (pair t) here
      ++ (if existsb stops here then [] else fired_on ls ts')
  end.

Definition fired (ls : list (EventTarget * Listener)) (ts : list EventTarget)
  : list Listener :=
  (fired_on ls ts).*2.

(** The transitions of an event that travels along [path]. *)
Definition click_transitions (ls : list (EventTarget * Listener))
  (path : list nat) : list Transition :=
  omap transition_of (fired ls (map TNode path ++ [TDocument])).

(** ** Pages used to run the script *)

Module Sample.

(** A portal page: inside the body the toggle button (1), the dropdown
    (2) with two theme options (3, 4), the footer year (5) and an
    unrelated box (6). *)
Definition portal_page : Document :=
  mkDocument (mkElement None "no-js wide" None "")
    [ mkSlot 1 true (mkElement (Some "themeToggle") "btn" None "THEMES");
      mkSlot 1 true (mkElement (Some "themeDropdown") "menu" None "");
      mkSlot 2 true (mkElement None "theme-option is-active"
                               (Some "theme-current") "Current");
      mkSlot 2 true (mkElement None "theme-option" (Some "theme-dark") "Dark");
      mkSlot 1 true (mkElement (Some "year") "" None "");
      mkSlot 1 true (mkElement None "box" None "map") ].

(** A page of the portal without the theme menu: two stray theme
    options (1, 3) and the footer year (2). *)
Definition bare_page : Document :=
  mkDocument (mkElement None "no-js" None "")
    [ mkSlot 1 true (mkElement None "theme-option" (Some "theme-current")
                               "Current");
      mkSlot 1 true (mkElement (Some "year") "" None "");
      mkSlot 1 true (mkElement None "theme-option is-active"
                               (Some "theme-dark") "Dark") ].

(** The map page counts its recolourings and remembers the width of the
    body class it saw; the panel script is not loaded; the name of the
    badge hook is taken by a value that is not a function. *)
Definition hooks : @Window (nat * nat) :=
  mkWindow (GFunction (λ d x, (S x.1, String.length (className (body d)))))
           GUndefined GNotFunction.

Definition load (d : Document) (st : Storage) : @State (nat * nat) :=
  mkState d st hooks (0, 0) [] [] 2026.

Definition fresh : Storage := mkStorage ∅ false false.
Definition disabled : Storage := mkStorage ∅ true false.
Definition exhausted : Storage :=
  mkStorage {[ STORAGE_KEY := "theme-dark" ]} false true.
Definition blank : Storage := mkStorage {[ STORAGE_KEY := "" ]} false false.

(** The portal page as loaded, after initialisation, and with the
    dropdown opened by a click on the toggle. *)
Definition loaded : @State (nat * nat) := load portal_page fresh.
Definition ready : @State (nat * nat) := exec init loaded.
Definition opened : @State (nat * nat) := exec (click 1) ready.

End Sample.

(** ** A returning visitor, and some unusual pages *)

Module Visit.

(** The origin's store also holds the language chosen elsewhere on the
    portal. *)
Definition shared : Storage :=
  mkStorage {[ "lang" := "ru"; STORAGE_KEY := "theme-current" ]}
            false false.

(** Load, open the dropdown, pick the dark theme. *)
Definition arrived : @State (nat * nat) :=
  Sample.load Sample.portal_page shared.
Definition picked : @State (nat * nat) :=
  exec (click 4) (exec (click 1) (exec init arrived)).

(** The dropdown is open in the markup, and the second option lost its
    data-theme attribute. *)
Definition odd_page : Document :=
  mkDocument (mkElement None "" None "")
    [ mkSlot 1 true (mkElement (Some "themeToggle") "" None "THEMES");
      mkSlot 1 true (mkElement (Some "themeDropdown") "open" None "");
      mkSlot 2 true (mkElement None "theme-option" (Some "theme-current")
                               "Current");
      mkSlot 2 true (mkElement None "theme-option" None "Dark") ].

Definition odd : @State (nat * nat) := Sample.load odd_page Sample.fresh.

(** A theme whose identifier spells the classes the script itself uses,
    offered by the second option. *)
Definition spelled : string := "theme-option is-active".

Definition spelled_page : Document :=
  mkDocument (mkElement None "" None "")
    [ mkSlot 1 true (mkElement (Some "themeToggle") "" None "THEMES");
      mkSlot 1 true (mkElement (Some "themeDropdown") "" None "");
      mkSlot 2 true (mkElement None "theme-option" (Some "theme-current")
                               "Current");
      mkSlot 2 true (mkElement None "theme-option" (Some spelled) "Odd") ].

Definition spelling : @State (nat * nat) :=
  Sample.load spelled_page Sample.fresh.

(** The body itself is the dropdown, and the second option carries an
    identifier with two spaces in it. *)
Definition body_menu_page : Document :=
  mkDocument (mkElement (Some "themeDropdown") "" None "")
    [ mkSlot 1 true (mkElement (Some "themeToggle") "" None "THEMES");
      mkSlot 1 true (mkElement None "theme-option" (Some "theme-current")
                               "Current");
      mkSlot 1 true (mkElement None "theme-option" (Some "wide  dark")
                               "Wide") ].

Definition body_menu : @State (nat * nat) :=
  Sample.load body_menu_page Sample.fresh.

(** The stored theme is the class of the options: a box (3) sits beside
    the controls. *)
Definition tagging : Storage :=
  mkStorage {[ STORAGE_KEY := "theme-option" ]} false false.

Definition tagged_page : Document :=
  mkDocument (mkElement None "" None "")
    [ mkSlot 1 true (mkElement (Some "themeToggle") "" None "THEMES");
      mkSlot 1 true (mkElement (Some "themeDropdown") "" None "");
      mkSlot 1 true (mkElement None "box" None "map") ].

Definition tagged : @State (nat * nat) := Sample.load tagged_page tagging.

(** The footer year (3) holds a stale year in a child element (4). *)
Definition footer_page : Document :=
  mkDocument (mkElement None "" None "")
    [ mkSlot 1 true (mkElement (Some "themeToggle") "" None "THEMES");
      mkSlot 1 true (mkElement (Some "themeDropdown") "" None "");
      mkSlot 1 true (mkElement (Some "year") "" None "");
      mkSlot 2 true (mkElement None "stale" None "1999");
      mkSlot 1 true (mkElement None "box" None "map") ].

Definition footer : @State (nat * nat) := Sample.load footer_page Sample.fresh.

End Visit.

(** * Proofs *)

(** ** Class tokens *)

Module TokenFacts.
Import DOMTokenList.

Lemma fields_nonempty s : fields s ≠ [].
Proof.
  destruct s as [|a s]; [done|]. cbn -[is_ws].
  destruct (is_ws a); [done|]. by destruct (fields s).
Qed.

Lemma fields_no_ws s : Forall (λ w, no_ws w = true) (fields s).
Proof.
  induction s as [|a s IH]; cbn -[is_ws]; [by repeat constructor|].
  destruct (is_ws a) eqn:Ha; [by constructor|].
  destruct (fields s) as [|w ws].
  - repeat constructor. cbn -[is_ws]. by rewrite Ha.
  - inversion IH as [|?? Hw Hws]; subst. constructor; [|done].
    cbn -[is_ws]. by rewrite Ha, Hw.
Qed.

Lemma fields_app t s :
  no_ws t = true →
  fields (t +:+ s)
  = match fields s with
    | w :: ws => (t +:+ w) :: ws
    | [] => [t]
    end.
Proof.
  induction t as [|a t IH]; cbn -[is_ws]; intros Ht.
  - destruct (fields s) eqn:Hs; [by apply fields_nonempty in Hs | done].
  - apply andb_true_iff in Ht as [Ha Ht]. apply negb_true_iff in Ha.
    change (fields (String a t +:+ s))
      with (if is_ws a then "" :: fields (t +:+ s)
            else match fields (t +:+ s) with
                 | w :: ws => String a w :: ws
                 | [] => [String a ""]
                 end).
    rewrite Ha, (IH Ht).
    destruct (fields s) eqn:Hs; [by apply fields_nonempty in Hs | done].
Qed.

Lemma append_empty_r t : t +:+ "" = t.
Proof.
  induction t as [|a t IH]; [done|].
  change (String a t +:+ "") with (String a (t +:+ "")). by rewrite IH.
Qed.

Lemma words_token t : is_token t → words t = [t].
Proof.
  intros [Hne Hws]. unfold words.
  pose proof (fields_app t "" Hws) as Hf.
  change (fields "") with [""] in Hf. cbv iota beta in Hf.
  rewrite !append_empty_r in Hf. rewrite Hf.
  by rewrite filter_cons_True.
Qed.

Lemma words_serialize ts : Forall is_token ts → words (serialize ts) = ts.
Proof.
  induction 1 as [|t ts Ht Hts IH]; [done|].
  destruct ts as [|t' ts]; [by apply words_token|].
  change (serialize (t :: t' :: ts))
    with (t +:+ String " " (serialize (t' :: ts))).
  unfold words in *. destruct Ht as [Hne Hws].
  pose proof (fields_app t (String " " (serialize (t' :: ts))) Hws) as Hf.
  change (fields (String " " (serialize (t' :: ts))))
    with ("" :: fields (serialize (t' :: ts))) in Hf.
  cbv iota beta in Hf. rewrite append_empty_r in Hf. rewrite Hf.
  rewrite filter_cons_True by done. by rewrite IH.
Qed.

Lemma words_are_tokens s : Forall is_token (words s).
Proof.
  unfold words. apply Forall_forall. intros w Hw.
  apply list_elem_of_filter in Hw as [Hne Hin]. split; [done|].
  pose proof (fields_no_ws s) as Hall. rewrite Forall_forall in Hall.
  by apply Hall.
Qed.

Lemma elem_of_ordered_set x l : x ∈ ordered_set l ↔ x ∈ l.
Proof.
  induction l as [|y l IH]; cbn; [done|].
  rewrite !elem_of_cons, list_elem_of_filter, IH.
  destruct (decide (x = y)); tauto.
Qed.

Lemma NoDup_ordered_set l : NoDup (ordered_set l).
Proof.
  induction l as [|y l IH]; cbn; [constructor|].
  constructor; [|by apply NoDup_filter].
  rewrite list_elem_of_filter. tauto.
Qed.

Lemma filter_id {A} (P : A → Prop) `{!∀ x, Decision (P x)} (l : list A) :
  Forall P l → filter P l = l.
Proof.
  induction 1 as [|x l Hx Hl IH]; [done|].
  by rewrite filter_cons_True, IH.
Qed.

Lemma ordered_set_NoDup l : NoDup l → ordered_set l = l.
Proof.
  induction 1 as [|y l Hy Hl IH]; cbn; [done|].
  rewrite IH. f_equal. apply filter_id, Forall_forall.
  intros x Hx Heq. by subst x.
Qed.

Lemma tokens_are_tokens cls : Forall is_token (tokens cls).
Proof.
  apply Forall_forall. intros t Ht.
  unfold tokens in Ht. rewrite elem_of_ordered_set in Ht.
  pose proof (words_are_tokens cls) as Hall. rewrite Forall_forall in Hall.
  by apply Hall.
Qed.

Lemma NoDup_tokens cls : NoDup (tokens cls).
Proof. apply NoDup_ordered_set. Qed.

(** Parsing what was serialized gives the token set back. *)
Lemma tokens_serialize ts :
  Forall is_token ts → NoDup ts → tokens (serialize ts) = ts.
Proof.
  intros Hts Hnd. unfold tokens. rewrite words_serialize by done.
  by apply ordered_set_NoDup.
Qed.

Lemma token_open : is_token "open".
Proof. split; [done | reflexivity]. Qed.

Lemma token_active : is_token "is-active".
Proof. split; [done | reflexivity]. Qed.

Lemma contains_true tok cls : contains tok cls = true ↔ tok ∈ tokens cls.
Proof. unfold contains. apply bool_decide_eq_true. Qed.

Lemma contains_false tok cls : contains tok cls = false ↔ tok ∉ tokens cls.
Proof. unfold contains. apply bool_decide_eq_false. Qed.

Lemma tokens_remove tok cls :
  tokens (remove tok cls) = filter (λ c, c ≠ tok) (tokens cls).
Proof.
  unfold remove. apply tokens_serialize.
  - apply Forall_forall. intros c Hc.
    apply list_elem_of_filter in Hc as [_ Hc].
    pose proof (tokens_are_tokens cls) as Hall.
    rewrite Forall_forall in Hall. by apply Hall.
  - apply NoDup_filter, NoDup_tokens.
Qed.

Lemma tokens_append tok cls :
  is_token tok → tok ∉ tokens cls →
  tokens (serialize (tokens cls ++ [tok])) = tokens cls ++ [tok].
Proof.
  intros Htok Hnot. apply tokens_serialize.
  - apply Forall_app. split; [apply tokens_are_tokens|].
    by apply Forall_singleton.
  - apply NoDup_app. split; [apply NoDup_tokens|].
    split; [|apply NoDup_singleton].
    intros c Hc Hc'. apply list_elem_of_singleton in Hc' as ->. done.
Qed.

(** The token set after [classList.toggle(tok, force)]. *)
Lemma tokens_toggle_force tok b cls :
  is_token tok →
  tokens (toggle_force tok b cls)
  = if b
    then if contains tok cls then tokens cls else tokens cls ++ [tok]
    else filter (λ c, c ≠ tok) (tokens cls).
Proof.
  intros Htok. unfold toggle_force.
  destruct (contains tok cls) eqn:Hc, b; try done.
  - apply tokens_remove.
  - apply contains_false in Hc. by apply tokens_append.
  - apply contains_false in Hc. symmetry. apply filter_id, Forall_forall.
    intros c Hin ->. done.
Qed.

Lemma tokens_toggle tok cls :
  is_token tok →
  tokens (toggle tok cls)
  = if contains tok cls then filter (λ c, c ≠ tok) (tokens cls)
    else tokens cls ++ [tok].
Proof.
  intros Htok. unfold toggle. destruct (contains tok cls) eqn:Hc.
  - apply tokens_remove.
  - apply contains_false in Hc. by apply tokens_append.
Qed.

Lemma contains_remove tok cls : contains tok (remove tok cls) = false.
Proof.
  apply contains_false. rewrite tokens_remove, list_elem_of_filter. tauto.
Qed.

Lemma contains_remove_ne tok c cls :
  c ≠ tok → contains c (remove tok cls) = contains c cls.
Proof.
  intros Hne. unfold contains. apply bool_decide_ext.
  rewrite tokens_remove, list_elem_of_filter. tauto.
Qed.

Lemma contains_toggle tok cls :
  is_token tok → contains tok (toggle tok cls) = negb (contains tok cls).
Proof.
  intros Htok. destruct (contains tok cls) eqn:Hc; cbn.
  - apply contains_false. rewrite tokens_toggle, Hc by done.
    rewrite list_elem_of_filter. tauto.
  - apply contains_true. rewrite tokens_toggle, Hc by done.
    rewrite elem_of_app, list_elem_of_singleton. tauto.
Qed.

Lemma contains_toggle_ne tok c cls :
  is_token tok → c ≠ tok → contains c (toggle tok cls) = contains c cls.
Proof.
  intros Htok Hne. unfold contains at 1 2. apply bool_decide_ext.
  rewrite tokens_toggle by done. destruct (contains tok cls).
  - rewrite list_elem_of_filter. tauto.
  - rewrite elem_of_app, list_elem_of_singleton. tauto.
Qed.

Lemma contains_toggle_force tok b cls :
  is_token tok → contains tok (toggle_force tok b cls) = b.
Proof.
  intros Htok. destruct b.
  - apply contains_true. rewrite tokens_toggle_force by done.
    destruct (contains tok cls) eqn:Hc; [by apply contains_true|].
    rewrite elem_of_app, list_elem_of_singleton. tauto.
  - apply contains_false. rewrite tokens_toggle_force by done.
    rewrite list_elem_of_filter. tauto.
Qed.

Lemma contains_toggle_force_ne tok c b cls :
  is_token tok → c ≠ tok →
  contains c (toggle_force tok b cls) = contains c cls.
Proof.
  intros Htok Hne. unfold contains at 1 2. apply bool_decide_ext.
  rewrite tokens_toggle_force by done. destruct b.
  - destruct (contains tok cls); [done|].
    rewrite elem_of_app, list_elem_of_singleton. tauto.
  - rewrite list_elem_of_filter. tauto.
Qed.

(** A second [toggle(tok, force)] with the same [force] finds the set as
    it wants it and writes nothing. *)
Lemma toggle_force_idempotent tok b cls :
  is_token tok →
  toggle_force tok b (toggle_force tok b cls) = toggle_force tok b cls.
Proof.
  intros Htok. unfold toggle_force at 1.
  rewrite contains_toggle_force by done. by destruct b.
Qed.

End TokenFacts.

(** ** Finding elements *)

Lemma elem_of_positions {A} (p : A → bool) n l (i : nat) :
  i ∈ positions p n l ↔
  (n ≤ i)%nat ∧ ∃ e, l !! (i - n)%nat = Some e ∧ p e = true.
Proof.
  revert n. induction l as [|e l IH]; intros n; simpl.
  - rewrite elem_of_nil. split; [done | intros (_ & e & He & _); done].
  - assert (Hrest : i ∈ positions p (S n) l ↔
              (n < i)%nat ∧
              ∃ e', (e :: l) !! (i - n)%nat = Some e' ∧ p e' = true).
    { rewrite IH. split.
      - intros (Hle & e' & He' & Hp). split; [lia|]. exists e'. split; [|done].
        replace (i - n) with (S (i - S n)) by lia. done.
      - intros (Hlt & e' & He' & Hp). split; [lia|]. exists e'. split; [|done].
        replace (i - n) with (S (i - S n)) in He' by lia. done. }
    destruct (p e) eqn:Hpe.
    + rewrite elem_of_cons, Hrest. split.
      * intros [-> | (Hlt & Hex)].
        -- split; [lia|]. exists e. by rewrite Nat.sub_diag.
        -- split; [lia | done].
      * intros (Hle & e' & He' & Hp).
        destruct (decide (i = n)) as [-> | Hne]; [by left | right].
        split; [lia | eauto].
    + rewrite Hrest. split.
      * intros (Hlt & Hex). split; [lia | done].
      * intros (Hle & e' & He' & Hp).
        destruct (decide (i = n)) as [-> | Hne].
        -- rewrite Nat.sub_diag in He'. simpl in He'. congruence.
        -- split; [lia | eauto].
Qed.

Lemma positions_lower {A} (p : A → bool) n l (i : nat) : i ∈ positions p n l → (n ≤ i)%nat.
Proof. rewrite elem_of_positions. tauto. Qed.

Lemma NoDup_positions {A} (p : A → bool) n l : NoDup (positions p n l).
Proof.
  revert n. induction l as [|e l IH]; intros n; simpl; [constructor|].
  destruct (p e); [|apply IH].
  constructor; [|apply IH].
  intros Hin. apply positions_lower in Hin. lia.
Qed.

(** A change of the items that [p] cannot see leaves the search
    result alone. *)
Lemma positions_map {A} (p : A → bool) (g : A → A) n l :
  (∀ e, p (g e) = p e) → positions p n (map g l) = positions p n l.
Proof.
  intros Hg. revert n. induction l as [|e l IH]; intros n; simpl; [done|].
  by rewrite Hg, IH.
Qed.

(** Altering every position where [p] holds is a conditional map. *)
Lemma alter_positions {A} (p : A → bool) (g : A → A) (pre l : list A) :
  foldl (λ es i, alter g i es) (pre ++ l) (positions p (length pre) l)
  = pre ++ map (λ e, if p e then g e else e) l.
Proof.
  revert pre. induction l as [|e l IH]; intros pre; simpl; [done|].
  destruct (p e) eqn:Hpe; simpl.
  - replace (alter g (length pre) (pre ++ e :: l))
      with ((pre ++ [g e]) ++ l).
    2:{ rewrite <- (Nat.add_0_r (length pre)), alter_app_r. simpl.
        by rewrite <- app_assoc. }
    replace (S (length pre)) with (length (pre ++ [g e]))
      by (rewrite length_app; simpl; lia).
    rewrite IH. by rewrite <- app_assoc.
  - replace (pre ++ e :: l) with ((pre ++ [e]) ++ l)
      by (by rewrite <- app_assoc).
    replace (S (length pre)) with (length (pre ++ [e]))
      by (rewrite length_app; simpl; lia).
    rewrite IH. by rewrite <- app_assoc.
Qed.

Lemma positions_alter {A} (p : A → bool) (g : A → A) i n l :
  (∀ x, p (g x) = p x) → positions p n (alter g i l) = positions p n l.
Proof.
  intros Hg. revert i n. induction l as [|x l IH]; intros i n; [done|].
  destruct i as [|i].
  - cbn. by rewrite Hg.
  - change (alter g (S i) (x :: l)) with (x :: alter g i l).
    cbn. by rewrite IH.
Qed.

Lemma head_positions {A} (p : A → bool) l (n : nat) :
  head (positions p 0 l) = Some n → ∃ x, l !! n = Some x ∧ p x = true.
Proof.
  intros Hh.
  assert (Hin : n ∈ positions p 0 l).
  { destruct (positions p 0 l); simplify_eq/=. left. }
  apply elem_of_positions in Hin as (_ & x & Hx & Hp).
  rewrite Nat.sub_0_r in Hx. eauto.
Qed.

(** ** The page as a list of slots *)

Lemma slots_update_element r f d :
  slots (update_element r f d) = alter (on_elem f) r (slots d).
Proof. by destruct r. Qed.

Lemma slots_inj d1 d2 : slots d1 = slots d2 → d1 = d2.
Proof.
  destruct d1 as [b1 i1], d2 as [b2 i2]. unfold slots. cbn.
  by intros [= -> ->].
Qed.

Lemma element_at_update r f d n :
  element_at (update_element r f d) n
  = if decide (r = n) then f <$> element_at d r else element_at d n.
Proof.
  unfold element_at. rewrite slots_update_element, list_lookup_alter.
  case_decide; [|done]. by destruct (slots d !! r).
Qed.

Lemma is_live_update r f d n :
  is_live (update_element r f d) n = is_live d n.
Proof.
  unfold is_live. rewrite slots_update_element, list_lookup_alter.
  case_decide; [subst|done]. by destruct (slots d !! n).
Qed.

Lemma length_slots_update r f d :
  length (slots (update_element r f d)) = length (slots d).
Proof. rewrite slots_update_element. apply length_alter. Qed.

Lemma getElementById_Some i d n :
  getElementById i d = Some n →
  ∃ e, element_at d n = Some e ∧ is_live d n = true ∧ el_id e = Some i.
Proof.
  unfold getElementById. intros Hh.
  apply head_positions in Hh as (sl & Hsl & Hp).
  apply andb_true_iff in Hp as [Hlive Hid].
  exists (elem sl). unfold element_at, is_live. rewrite Hsl.
  split; [done|]. split; [done|].
  unfold has_id in Hid. by apply bool_decide_eq_true in Hid.
Qed.

Lemma elem_of_querySelectorAll c d (n : nat) :
  n ∈ querySelectorAll c d ↔
  ∃ e, element_at d n = Some e ∧ is_live d n = true ∧ has_class c e = true.
Proof.
  unfold querySelectorAll, element_at, is_live.
  rewrite elem_of_positions, Nat.sub_0_r. split.
  - intros (_ & sl & -> & Hp). apply andb_true_iff in Hp as [? ?].
    by exists (elem sl).
  - intros (e & He & Hlive & Hc). split; [lia|].
    destruct (slots d !! n) as [sl|]; [|done]. cbn in He.
    injection He as <-. exists sl. split; [done|]. by rewrite Hlive, Hc.
Qed.

(** Searching by id sees neither the class nor the text. *)
Lemma getElementById_update i r f d :
  (∀ e, el_id (f e) = el_id e) →
  getElementById i (update_element r f d) = getElementById i d.
Proof.
  intros Hf. unfold getElementById.
  rewrite slots_update_element, positions_alter; [done|].
  intros sl. cbn. unfold has_id. by rewrite Hf.
Qed.

(** Searching by class sees the class tokens only. *)
Lemma querySelectorAll_update c r f d :
  (∀ e, has_class c (f e) = has_class c e) →
  querySelectorAll c (update_element r f d) = querySelectorAll c d.
Proof.
  intros Hf. unfold querySelectorAll.
  rewrite slots_update_element, positions_alter; [done|].
  intros sl. cbn. by rewrite Hf.
Qed.

(** ** Running the script *)

Section Proofs.

Context {World : Type}.
Implicit Types (s : @State World) (d : Document) (e : Element).
Implicit Types (theme : JSValue).

#[local] Arguments themed : simpl never.
#[local] Arguments saved : simpl never.
#[local] Arguments persisted : simpl never.
#[local] Arguments notified : simpl never.

Lemma bind_run {A B} (m : M A) (k : A → M B) s :
  (m ≫= k) s = match m s with
               | (Normal a, s') => k a s'
               | (Throw x, s') => (Throw x, s')
               end.
Proof. reflexivity. Qed.

Lemma forEach_modify {A} (l : list A) (g : A → @State World → @State World) s :
  forEach l (λ x, modify (g x)) s = (Normal tt, foldl (λ s x, g x s) s l).
Proof.
  revert s. induction l as [|x l IH]; intros s; simpl; [done|].
  rewrite bind_run. simpl. apply IH.
Qed.

Lemma foldl_update_element (g : Element → Element) (ns : list nat) s :
  foldl (λ s i, with_document (update_element i g) s) s ns
  = with_document (λ d, foldl (λ d i, update_element i g d) d ns) s.
Proof.
  revert s. induction ns as [|i ns IH]; intros s; cbn [foldl].
  - by destruct s.
  - rewrite IH. by destruct s.
Qed.

Lemma slots_foldl_update (g : Element → Element) (ns : list nat) d :
  slots (foldl (λ d i, update_element i g d) d ns)
  = foldl (λ l i, alter (on_elem g) i l) (slots d) ns.
Proof.
  revert d. induction ns as [|i ns IH]; intros d; cbn [foldl]; [done|].
  by rewrite IH, slots_update_element.
Qed.

Lemma slots_themed theme d :
  slots (themed theme d)
  = sync_slot theme <$> slots (set_body_className (ToString theme) d).
Proof.
  unfold themed, slots. cbn [body inner set_body_className update_element].
  rewrite fmap_cons. f_equal.
  unfold sync_slot. cbn [live elem].
  by destruct (has_class "theme-option"
                 (with_className (λ _, ToString theme) (body d))).
Qed.

(** [applyTheme] returns normally and rewrites the page to [themed]. *)
Lemma applyTheme_run theme s :
  applyTheme theme s = (Normal tt, with_document (themed theme) s).
Proof.
  unfold applyTheme. rewrite bind_run. simpl.
  rewrite bind_run. simpl.
  rewrite forEach_modify, foldl_update_element.
  unfold with_document. simpl. do 2 f_equal.
  apply slots_inj. rewrite slots_foldl_update, slots_themed.
  apply (alter_positions _ _ []).
Qed.

(** [sync_option] touches the token [is-active] and nothing else. *)
Lemma sync_option_has_class theme e c :
  c ≠ "is-active" → has_class c (sync_option theme e) = has_class c e.
Proof.
  intros Hne. unfold has_class, sync_option. simpl.
  by apply TokenFacts.contains_toggle_force_ne; [apply TokenFacts.token_active|].
Qed.

Lemma sync_option_active theme e :
  has_class "is-active" (sync_option theme e)
  = strict_eq (dataset_theme e) theme.
Proof.
  unfold has_class, sync_option. simpl.
  apply TokenFacts.contains_toggle_force, TokenFacts.token_active.
Qed.

Lemma sync_slot_frame theme sl :
  depth (sync_slot theme sl) = depth sl ∧
  live (sync_slot theme sl) = live sl ∧
  el_id (elem (sync_slot theme sl)) = el_id (elem sl) ∧
  data_theme (elem (sync_slot theme sl)) = data_theme (elem sl) ∧
  text (elem (sync_slot theme sl)) = text (elem sl) ∧
  ∀ c, c ≠ "is-active" →
       has_class c (elem (sync_slot theme sl)) = has_class c (elem sl).
Proof.
  unfold sync_slot.
  destruct (live sl && has_class "theme-option" (elem sl)); [|done].
  repeat (split; [done|]). intros c Hc. by apply sync_option_has_class.
Qed.

Lemma themed_slot theme d n :
  slots (themed theme d) !! n
  = sync_slot theme
    <$> slots (set_body_className (ToString theme) d) !! n.
Proof. rewrite slots_themed. apply list_lookup_fmap. Qed.

Lemma themed_is_live theme d n : is_live (themed theme d) n = is_live d n.
Proof.
  unfold is_live. rewrite themed_slot.
  unfold set_body_className. rewrite slots_update_element, list_lookup_alter.
  case_decide; [subst n|].
  - destruct (slots d !! 0) as [sl|]; [|done]. cbn.
    by destruct (sync_slot_frame theme (on_elem (with_className (λ _, ToString theme)) sl))
      as (_ & -> & _).
  - destruct (slots d !! n) as [sl|]; [|done]. cbn.
    by destruct (sync_slot_frame theme sl) as (_ & -> & _).
Qed.

Lemma themed_options_synced theme d : options_synced theme (themed theme d).
Proof.
  intros n e He Hlive Htag. unfold element_at, is_live in *.
  rewrite themed_slot in He, Hlive.
  destruct (slots (set_body_className (ToString theme) d) !! n)
    as [sl|]; [|done].
  cbn in He, Hlive. injection He as <-.
  destruct (sync_slot_frame theme sl) as (_ & Hl & _ & _ & _ & Hc).
  rewrite Hl in Hlive. rewrite Hc in Htag by done.
  unfold sync_slot. rewrite Hlive, Htag. cbn.
  rewrite sync_option_active. unfold strict_eq.
  by rewrite bool_decide_eq_true.
Qed.

(** The body class after [applyTheme]: the assigned string, with
    [is-active] switched when that string makes the body a theme
    option. *)
Lemma themed_body theme d :
  body_className (themed theme d)
  = if has_class "theme-option"
         (with_className (λ _, ToString theme) (body d))
    then DOMTokenList.toggle_force "is-active"
           (strict_eq (dataset_theme (body d)) theme) (ToString theme)
    else ToString theme.
Proof.
  unfold body_className, themed, sync_slot. cbn [body live andb elem].
  by destruct (has_class "theme-option"
                 (with_className (λ _, ToString theme) (body d))).
Qed.

Lemma themed_body_untagged theme d :
  "theme-option" ∉ DOMTokenList.tokens (ToString theme) →
  body_className (themed theme d) = ToString theme.
Proof.
  intros Hno. rewrite themed_body. unfold has_class. cbn.
  apply TokenFacts.contains_false in Hno. by rewrite Hno.
Qed.

Lemma filter_filter_ne (a b : string) (l : list string) :
  filter (λ c, c ≠ a ∧ c ≠ b) (filter (λ c, c ≠ a) l)
  = filter (λ c, c ≠ a ∧ c ≠ b) l.
Proof.
  induction l as [|x l IH]; [done|].
  rewrite !(filter_cons _ x). destruct (decide (x ≠ a)) as [Hx|Hx].
  - rewrite (filter_cons _ x). by rewrite IH.
  - rewrite IH. case_decide; [tauto | done].
Qed.

Lemma steady_tokens_toggle_force b cls :
  steady_tokens (DOMTokenList.toggle_force "is-active" b cls)
  = steady_tokens cls.
Proof.
  unfold steady_tokens.
  rewrite TokenFacts.tokens_toggle_force by apply TokenFacts.token_active.
  destruct b; [|apply filter_filter_ne].
  destruct (DOMTokenList.contains "is-active" cls); [done|].
  rewrite filter_app. rewrite filter_cons_False by tauto.
  by rewrite filter_nil, app_nil_r.
Qed.

Lemma themed_body_steady theme d :
  steady_tokens (body_className (themed theme d))
  = steady_tokens (ToString theme).
Proof.
  rewrite themed_body.
  destruct (has_class "theme-option" _); [|done].
  apply steady_tokens_toggle_force.
Qed.

(** The hooks act on their own state: page, storage and listeners stay. *)
Lemma notified_frame s :
  document (notified s) = document s ∧
  localStorage (notified s) = localStorage s ∧
  listeners (notified s) = listeners s ∧
  window (notified s) = window s ∧
  year_now (notified s) = year_now s.
Proof.
  destruct s as [d st [h1 h2 h3] x ls cs y]. unfold notified. simpl.
  destruct h1, h2, h3; done.
Qed.

Lemma notified_calls s :
  calls (notified s) = calls s ++ hooks_present (window s).
Proof.
  destruct s as [d st [h1 h2 h3] x ls cs y]. unfold notified, hooks_present.
  destruct h1, h2, h3; simpl; rewrite <- ?app_assoc, ?app_nil_r; done.
Qed.

Lemma notified_world s :
  world (notified s)
  = foldl (hook_effect (window s) (document s)) (world s)
          [recolorMap; updatePanel; updateAbbrBadge].
Proof.
  destruct s as [d st [h1 h2 h3] x ls cs y]. unfold notified, hook_effect.
  destruct h1, h2, h3; done.
Qed.

Lemma call_if_function_run h s :
  call_if_function h s
  = (Normal tt, match global h (window s) with
                | GFunction f => with_call h f s
                | _ => s
                end).
Proof. unfold call_if_function. by destruct (global h (window s)). Qed.

(** The guarded write never throws to its caller. *)
Lemma guarded_setItem_run theme s :
  try_catch (setItem STORAGE_KEY (ToString theme)) (λ _, ret tt) s
  = (Normal tt, persisted theme s).
Proof.
  unfold try_catch, setItem, persisted.
  destruct (denied (localStorage s)), (full (localStorage s)); done.
Qed.

Lemma setTheme_run theme s :
  setTheme theme s
  = (Normal tt, notified (with_document (themed theme) (persisted theme s))).
Proof.
  unfold setTheme. rewrite bind_run, guarded_setItem_run.
  rewrite bind_run, applyTheme_run.
  rewrite bind_run, call_if_function_run.
  rewrite bind_run, call_if_function_run.
  rewrite call_if_function_run. reflexivity.
Qed.

(** The guarded read never throws to its caller. *)
Lemma guarded_getItem_run s :
  try_catch (v ← getItem STORAGE_KEY; ret (js_or v DEFAULT))
            (λ _, ret DEFAULT) s
  = (Normal (saved s), s).
Proof.
  unfold try_catch, saved. rewrite bind_run. unfold getItem.
  by destruct (denied (localStorage s)).
Qed.

Lemma loadTheme_run s :
  loadTheme s = (Normal tt, with_document (themed (JString (saved s))) s).
Proof.
  unfold loadTheme. rewrite bind_run, guarded_getItem_run.
  apply applyTheme_run.
Qed.

Lemma persisted_frame theme s :
  document (persisted theme s) = document s ∧
  window (persisted theme s) = window s ∧
  world (persisted theme s) = world s ∧
  calls (persisted theme s) = calls s ∧
  listeners (persisted theme s) = listeners s.
Proof.
  unfold persisted.
  by destruct (denied (localStorage s)), (full (localStorage s)).
Qed.

Lemma setTheme_document theme s :
  document (exec (setTheme theme) s) = themed theme (document s).
Proof.
  unfold exec. rewrite setTheme_run. simpl.
  destruct (notified_frame
              (with_document (themed theme) (persisted theme s))) as [-> _].
  simpl. by destruct (persisted_frame theme s) as [-> _].
Qed.

Lemma setTheme_storage theme s :
  localStorage (exec (setTheme theme) s) = localStorage (persisted theme s).
Proof.
  unfold exec. rewrite setTheme_run. simpl.
  by destruct (notified_frame
              (with_document (themed theme) (persisted theme s)))
    as (_ & -> & _).
Qed.

Lemma elem_of_hooks_present (w : @Window World) h :
  h ∈ hooks_present w ↔ is_function (global h w) = true.
Proof.
  unfold hooks_present. rewrite list_elem_of_filter.
  split; [tauto | intros Hf; split; [done|]].
  destruct h; set_solver.
Qed.

Lemma tokens_but_active b cls :
  filter (λ c, c ≠ "is-active")
    (DOMTokenList.tokens (DOMTokenList.toggle_force "is-active" b cls))
  = filter (λ c, c ≠ "is-active") (DOMTokenList.tokens cls).
Proof.
  rewrite TokenFacts.tokens_toggle_force by apply TokenFacts.token_active.
  destruct b.
  - destruct (DOMTokenList.contains "is-active" cls); [done|].
    rewrite filter_app, filter_cons_False by tauto.
    by rewrite filter_nil, app_nil_r.
  - induction (DOMTokenList.tokens cls) as [|x l IH]; [done|].
    rewrite !(filter_cons _ x). case_decide.
    + by rewrite filter_cons_True, IH.
    + done.
Qed.

Lemma default_untagged :
  "theme-option" ∉ DOMTokenList.tokens "theme-current".
Proof. compute_done. Qed.

(** ** What the script does to the theme *)

(** C3 (amended). For every theme identifier [t], [applyTheme(t)]
    returns normally; it assigns [t] to the body's class attribute,
    whatever that was before, and then marks every element of the
    document that carries [theme-option] active if and only if its
    data-theme is [t].  The body is among these elements when [t]
    contains the class token [theme-option]: the body class is exactly
    [t] when [t] does not contain that token, and in every case its
    tokens other than [is-active] are the tokens of [t].  An element
    inside the body that is a theme option keeps its tag and its
    data-theme; every other element inside the body is unchanged. *)
Theorem applyTheme_sets_class_and_marks_options (t : string) s :
  outcome (applyTheme (JString t)) s = Normal tt ∧
  ("theme-option" ∉ DOMTokenList.tokens t →
   body_className (document (exec (applyTheme (JString t)) s)) = t) ∧
  filter (λ c, c ≠ "is-active")
    (DOMTokenList.tokens
       (body_className (document (exec (applyTheme (JString t)) s))))
  = filter (λ c, c ≠ "is-active") (DOMTokenList.tokens t) ∧
  options_synced (JString t) (document (exec (applyTheme (JString t)) s)) ∧
  ∀ n e0, element_at (document s) (S n) = Some e0 →
    ∃ e, element_at (document (exec (applyTheme (JString t)) s)) (S n)
         = Some e ∧
      if is_live (document s) (S n) && has_class "theme-option" e0
      then has_class "theme-option" e = true ∧
           data_theme e = data_theme e0 ∧
           (has_class "is-active" e = true ↔ data_theme e0 = Some t)
      else e = e0.
Proof.
  unfold outcome, exec. rewrite applyTheme_run. cbn [fst snd].
  cbn [document with_document].
  split; [done|]. split; [apply (themed_body_untagged (JString t))|].
  split.
  { rewrite themed_body. destruct (has_class "theme-option" _); [|done].
    apply tokens_but_active. }
  split; [apply themed_options_synced|].
  intros n e0 He0. unfold element_at, is_live in *.
  rewrite themed_slot. unfold set_body_className.
  rewrite slots_update_element, list_lookup_alter_ne by done.
  destruct (slots (document s) !! S n) as [sl|]; [|done].
  cbn in He0. injection He0 as <-. cbn [fmap option_fmap option_map].
  eexists. split; [done|]. unfold sync_slot.
  destruct (live sl && has_class "theme-option" (elem sl)) eqn:Htag; [|done].
  apply andb_true_iff in Htag as [_ Htag]. cbn [elem on_elem].
  split; [by rewrite sync_option_has_class|]. split; [done|].
  rewrite sync_option_active. unfold strict_eq, dataset_theme.
  rewrite bool_decide_eq_true.
  destruct (data_theme (elem sl)); split; congruence.
Qed.

(** C7. [setTheme(theme)] returns normally; the page it leaves is the
    page [applyTheme(theme)] produces; the hooks invoked are, in the
    order map recolor, panel update, badge update, exactly those that
    [window] holds as a function, each once; and every invoked hook saw
    the page with the theme already applied. *)
Theorem setTheme_notifies_present_hooks theme s :
  outcome (setTheme theme) s = Normal tt ∧
  document (exec (setTheme theme) s) = document (exec (applyTheme theme) s) ∧
  calls (exec (setTheme theme) s) = calls s ++ hooks_present (window s) ∧
  NoDup (hooks_present (window s)) ∧
  (∀ h, h ∈ hooks_present (window s) ↔
        is_function (global h (window s)) = true) ∧
  world (exec (setTheme theme) s)
  = foldl (hook_effect (window s) (document (exec (applyTheme theme) s)))
          (world s) [recolorMap; updatePanel; updateAbbrBadge].
Proof.
  split; [unfold outcome; by rewrite setTheme_run|].
  split; [rewrite setTheme_document; unfold exec;
          by rewrite applyTheme_run|].
  destruct (persisted_frame theme s) as (Hd & Hw & Hx & Hc & _).
  split; [|split; [|split]].
  - unfold exec. rewrite setTheme_run. simpl.
    rewrite notified_calls. simpl. by rewrite Hc, Hw.
  - unfold hooks_present. apply NoDup_filter.
    compute_done.
  - apply elem_of_hooks_present.
  - unfold exec. rewrite setTheme_run, applyTheme_run. simpl.
    rewrite notified_world. simpl. by rewrite Hd, Hw, Hx.
Qed.

(** C2. When the write of [setTheme] throws, [setTheme] still returns
    normally, leaves the page [applyTheme] produces and leaves the store
    as it was; when the read of [loadTheme] throws, [loadTheme] still
    returns normally and leaves the page [applyTheme] produces for the
    default identifier. *)
Theorem storage_failure_is_swallowed theme s (x : Exn) :
  (outcome (setItem STORAGE_KEY (ToString theme)) s = Throw x →
     outcome (setTheme theme) s = Normal tt ∧
     document (exec (setTheme theme) s)
     = document (exec (applyTheme theme) s) ∧
     localStorage (exec (setTheme theme) s) = localStorage s) ∧
  (outcome (getItem STORAGE_KEY) s = Throw x →
     outcome loadTheme s = Normal tt ∧
     exec loadTheme s = exec (applyTheme (JString DEFAULT)) s).
Proof.
  split.
  - intros Hthrow.
    split; [unfold outcome; by rewrite setTheme_run|].
    split; [rewrite setTheme_document; unfold exec;
            by rewrite applyTheme_run|].
    rewrite setTheme_storage. unfold persisted.
    unfold outcome, setItem in Hthrow.
    by destruct (denied (localStorage s)), (full (localStorage s)).
  - intros Hthrow.
    split; [unfold outcome; by rewrite loadTheme_run|].
    unfold exec. rewrite loadTheme_run, applyTheme_run. simpl.
    unfold saved. unfold outcome, getItem in Hthrow.
    by destruct (denied (localStorage s)).
Qed.

(** C4. When nothing is stored under the key, or the read throws,
    [loadTheme] returns normally and the body class is
    ["theme-current"], with the options marked for it. *)
Theorem loadTheme_defaults s :
  stored_theme s = None ∨ (∃ x, outcome (getItem STORAGE_KEY) s = Throw x) →
  outcome loadTheme s = Normal tt ∧
  body_className (document (exec loadTheme s)) = "theme-current" ∧
  options_synced (JString "theme-current") (document (exec loadTheme s)).
Proof.
  intros Hcase.
  assert (Hsaved : saved s = "theme-current").
  { unfold saved. destruct Hcase as [Hnone | [x Hthrow]].
    - unfold stored_theme in Hnone. rewrite Hnone.
      by destruct (denied (localStorage s)).
    - unfold outcome, getItem in Hthrow.
      by destruct (denied (localStorage s)). }
  unfold outcome, exec. rewrite loadTheme_run, Hsaved. cbn [fst snd].
  cbn [document with_document].
  split; [done|].
  split; [apply (themed_body_untagged (JString "theme-current")),
            default_untagged|].
  apply themed_options_synced.
Qed.

(** C9. When the stored value is the empty string, [loadTheme] applies
    ["theme-current"], not the empty string. *)
Theorem loadTheme_empty_string_is_absent s :
  stored_theme s = Some "" →
  outcome loadTheme s = Normal tt ∧
  body_className (document (exec loadTheme s)) = "theme-current".
Proof.
  intros Hempty. unfold outcome, exec. rewrite loadTheme_run.
  cbn [fst snd document with_document].
  split; [done|].
  assert (Hsaved : saved s = "theme-current").
  { unfold saved. unfold stored_theme in Hempty.
    rewrite Hempty. by destruct (denied (localStorage s)). }
  rewrite Hsaved.
  apply (themed_body_untagged (JString "theme-current")), default_untagged.
Qed.

(** C10. [loadTheme] leaves the store as it found it, entries and
    failure modes alike; when nothing is stored, the body gets the
    default identifier and still nothing is stored. *)
Theorem loadTheme_does_not_persist s :
  localStorage (exec loadTheme s) = localStorage s ∧
  stored_theme (exec loadTheme s) = stored_theme s ∧
  (stored_theme s = None →
     body_className (document (exec loadTheme s)) = DEFAULT ∧
     stored_theme (exec loadTheme s) = None).
Proof.
  unfold exec. rewrite loadTheme_run. cbn [snd].
  split; [done|]. split; [done|].
  intros Hnone. split; [|done]. cbn [document with_document].
  assert (Hsaved : saved s = DEFAULT).
  { unfold saved. unfold stored_theme in Hnone. rewrite Hnone.
    by destruct (denied (localStorage s)). }
  rewrite Hsaved.
  apply (themed_body_untagged (JString DEFAULT)), default_untagged.
Qed.

(** ** The dropdown *)

Lemma dropdown_open_update dd (f : string → string) s :
  dropdown_open dd
    (with_document (update_element dd (with_className f)) s)
  = match element_at (document s) dd with
    | Some e => DOMTokenList.contains "open" (f (className e))
    | None => false
    end.
Proof.
  unfold dropdown_open. cbn [document with_document].
  rewrite element_at_update, decide_True by done.
  by destruct (element_at (document s) dd).
Qed.

Lemma update_element_is_Some dd n (f : Element → Element) s :
  is_Some (element_at (document s) dd) →
  is_Some (element_at (document (with_document (update_element n f) s)) dd).
Proof.
  cbn [document with_document]. rewrite element_at_update.
  case_decide; subst; [|done]. intros [e ->]. by eexists.
Qed.

Lemma themed_element_at theme d n :
  element_at (themed theme d) (S n)
  = (λ sl, elem (sync_slot theme sl)) <$> slots d !! S n.
Proof.
  unfold element_at. rewrite themed_slot. unfold set_body_className.
  rewrite slots_update_element, list_lookup_alter_ne by done.
  by destruct (slots d !! S n).
Qed.


Lemma themed_is_Some theme dd d :
  is_Some (element_at d dd) → is_Some (element_at (themed theme d) dd).
Proof.
  unfold element_at. rewrite themed_slot. unfold set_body_className.
  rewrite slots_update_element, list_lookup_alter.
  case_decide; subst; intros [e He].
  - destruct (slots d !! 0); [by eexists | done].
  - destruct (slots d !! dd); [by eexists | done].
Qed.

Lemma setTheme_listeners theme s :
  listeners (exec (setTheme theme) s) = listeners s.
Proof.
  unfold exec. rewrite setTheme_run. cbn.
  destruct (notified_frame
              (with_document (themed theme) (persisted theme s)))
    as (_ & _ & -> & _).
  cbn. by destruct (persisted_frame theme s) as (_ & _ & _ & _ & ->).
Qed.

Lemma run_option_click dd this s :
  run_listener (OnOptionClick dd) this s
  = (Normal false,
     with_document
       (update_element dd (with_className (DOMTokenList.remove "open")))
       (exec (setTheme (this_dataset_theme this s)) s)).
Proof.
  unfold run_listener. rewrite bind_run. unfold gets.
  rewrite bind_run. unfold exec. by rewrite setTheme_run.
Qed.

(** Opening or closing the dropdown does not disturb the marking of
    the options, even when the dropdown is itself tagged as one. *)
Lemma options_synced_update theme dd (f : string → string) d :
  (∀ c cls, c ≠ "open" →
     DOMTokenList.contains c (f cls) = DOMTokenList.contains c cls) →
  options_synced theme d →
  options_synced theme (update_element dd (with_className f) d).
Proof.
  intros Hf Hsync n e. rewrite element_at_update, is_live_update.
  case_decide as Hn; [subst n | by apply Hsync].
  destruct (element_at d dd) as [e0|] eqn:He0; [|done].
  intros [= <-]. unfold has_class. cbn. rewrite !Hf by done.
  apply (Hsync dd e0 He0).
Qed.

Lemma closed_dropdown dd s :
  dropdown_open dd
    (with_document
       (update_element dd (with_className (DOMTokenList.remove "open"))) s)
  = false.
Proof.
  rewrite dropdown_open_update.
  destruct (element_at (document s) dd); [|done].
  apply TokenFacts.contains_remove.
Qed.

Lemma body_update_inner dd f d :
  dd ≠ 0 → body (update_element dd f d) = body d.
Proof. by destruct dd. Qed.

(** C1 (amended). Provided the write to the store does not throw, the
    identifier [t] does not contain the class token [theme-option], and
    the dropdown is not the body element itself, the click listener of a
    theme option carrying the identifier [t] returns normally and leaves
    the store holding [t] under the key, the body class equal to [t],
    every theme option marked active exactly when its data-theme is
    [t], and the dropdown closed. *)
Theorem option_click_selects (dd i : nat) e (t : string) s :
  element_at (document s) i = Some e →
  data_theme e = Some t →
  denied (localStorage s) = false →
  full (localStorage s) = false →
  "theme-option" ∉ DOMTokenList.tokens t →
  dd ≠ 0 →
  ∃ s', run_listener (OnOptionClick dd) (TNode i) s = (Normal false, s') ∧
        selected t dd s'.
Proof.
  intros He Ht Hden Hfull Htag Hdd. rewrite run_option_click.
  eexists. split; [reflexivity|].
  assert (Hthis : this_dataset_theme (TNode i) s = JString t).
  { unfold this_dataset_theme, dataset_theme. by rewrite He, Ht. }
  rewrite Hthis. unfold selected. split; [|split; [|split]].
  - unfold stored_theme. cbn. rewrite setTheme_storage.
    unfold persisted. rewrite Hden, Hfull. cbn. apply lookup_insert_eq.
  - unfold body_className. cbn [document with_document].
    rewrite body_update_inner, setTheme_document by done.
    by apply (themed_body_untagged (JString t)).
  - cbn [document with_document]. rewrite setTheme_document.
    apply options_synced_update; [|apply themed_options_synced].
    intros c cls Hc. by apply TokenFacts.contains_remove_ne.
  - apply closed_dropdown.
Qed.

(** *** One listener is one transition *)

Lemma dropdown_run_app trs1 trs2 b :
  dropdown_run (trs1 ++ trs2) b = dropdown_run trs2 (dropdown_run trs1 b).
Proof. unfold dropdown_run. apply foldl_app. Qed.

(** Each listener returns normally, reports whether it stopped the
    propagation, registers nothing, and moves the dropdown by the
    transition it stands for. *)
Lemma run_listener_effect dd l this s :
  captures dd l →
  is_Some (element_at (document s) dd) →
  ∃ s', run_listener l this s = (Normal (stops l), s') ∧
        listeners s' = listeners s ∧
        is_Some (element_at (document s') dd) ∧
        dropdown_open dd s'
        = dropdown_run (option_list (transition_of l)) (dropdown_open dd s).
Proof.
  intros Hcap Hdd. destruct l as [d | d | | d]; cbn in Hcap; subst.
  - eexists. split; [reflexivity|]. split; [done|].
    split; [by apply update_element_is_Some|].
    rewrite dropdown_open_update. unfold dropdown_open. cbn.
    destruct Hdd as [e ->].
    apply TokenFacts.contains_toggle, TokenFacts.token_open.
  - eexists. split; [reflexivity|]. split; [done|].
    split; [by apply update_element_is_Some|]. apply closed_dropdown.
  - eexists. split; [reflexivity|]. done.
  - rewrite run_option_click. eexists. split; [reflexivity|].
    split; [cbn; apply setTheme_listeners|].
    split; [|apply closed_dropdown].
    apply update_element_is_Some. rewrite setTheme_document.
    by apply themed_is_Some.
Qed.

Lemma run_listeners_effect dd ls this s :
  Forall (captures dd) ls →
  is_Some (element_at (document s) dd) →
  ∃ s', run_listeners ls this s = (Normal (existsb stops ls), s') ∧
        listeners s' = listeners s ∧
        is_Some (element_at (document s') dd) ∧
        dropdown_open dd s'
        = dropdown_run (omap transition_of ls) (dropdown_open dd s).
Proof.
  intros Hcap. revert s. induction Hcap as [|l ls Hl Hls IH]; intros s Hdd.
  - eexists. split; [reflexivity|]. done.
  - destruct (run_listener_effect dd l this s Hl Hdd)
      as (s1 & Hrun & Hls1 & Hdd1 & Hopen1).
    destruct (IH s1 Hdd1) as (s2 & Hrun2 & Hls2 & Hdd2 & Hopen2).
    exists s2. split.
    + cbn [run_listeners]. rewrite bind_run. unfold try_catch.
      rewrite Hrun, bind_run, Hrun2. reflexivity.
    + split; [congruence|]. split; [done|].
      rewrite Hopen2, Hopen1.
      replace (omap transition_of (l :: ls))
        with (option_list (transition_of l) ++ omap transition_of ls)
        by (cbn; by destruct (transition_of l)).
      by rewrite dropdown_run_app.
Qed.

Lemma elem_of_listeners_on t l (ls : list (EventTarget * Listener)) :
  l ∈ listeners_on t ls ↔ (t, l) ∈ ls.
Proof.
  unfold listeners_on. rewrite list_elem_of_fmap. split.
  - intros ([t' l'] & -> & Hin). apply list_elem_of_filter in Hin.
    cbn in Hin. by destruct Hin as [-> ?].
  - intros Hin. exists (t, l). split; [done|].
    apply list_elem_of_filter. done.
Qed.

Lemma Forall_listeners_on (P : Listener → Prop) t ls :
  Forall (λ tl, P tl.2) ls → Forall P (listeners_on t ls).
Proof.
  rewrite !Forall_forall. intros Hall l Hin.
  apply elem_of_listeners_on in Hin. apply (Hall _ Hin).
Qed.

(** *** A click is a run of transitions *)

Lemma fired_cons (ls : list (EventTarget * Listener)) t ts :
  fired ls (t :: ts)
  = listeners_on t ls
    ++ (if existsb stops (listeners_on t ls) then [] else fired ls ts).
Proof.
  unfold fired. cbn [fired_on]. rewrite fmap_app. f_equal.
  - induction (listeners_on t ls) as [|l l' IH]; [done|].
    cbn. by rewrite IH.
  - by destruct (existsb stops (listeners_on t ls)).
Qed.

Lemma propagate_effect dd ts s :
  Forall (λ tl, captures dd tl.2) (listeners s) →
  is_Some (element_at (document s) dd) →
  ∃ s', propagate ts s = (Normal tt, s') ∧
        listeners s' = listeners s ∧
        is_Some (element_at (document s') dd) ∧
        dropdown_open dd s'
        = dropdown_run (omap transition_of (fired (listeners s) ts))
            (dropdown_open dd s).
Proof.
  revert s. induction ts as [|t ts IH]; intros s Hcap Hdd.
  - eexists. split; [reflexivity|]. done.
  - destruct (run_listeners_effect dd (listeners_on t (listeners s)) t s)
      as (s1 & Hrun & Hls1 & Hdd1 & Hopen1);
      [by apply Forall_listeners_on | done |].
    cbn [propagate]. rewrite fired_cons, bind_run. unfold fire.
    rewrite bind_run. unfold gets at 1. rewrite Hrun.
    destruct (existsb stops (listeners_on t (listeners s))).
    + exists s1. split; [reflexivity|]. rewrite app_nil_r. done.
    + destruct (IH s1) as (s2 & Hrun2 & Hls2 & Hdd2 & Hopen2);
        [by rewrite Hls1 | done |].
      exists s2. split; [done|]. split; [congruence|]. split; [done|].
      rewrite omap_app, dropdown_run_app, <- Hopen1, <- Hls1. done.
Qed.

(** *** The listeners of a wired page *)

Lemma elem_of_wiring tg dd opts t l :
  (t, l) ∈ wiring tg dd opts ↔
  (t = TNode tg ∧ l = OnToggleClick dd) ∨
  (t = TDocument ∧ l = OnDocumentClick dd) ∨
  (t = TNode dd ∧ l = OnDropdownClick) ∨
  (∃ o, o ∈ opts ∧ t = TNode o ∧ l = OnOptionClick dd).
Proof.
  unfold wiring. rewrite elem_of_app, !elem_of_cons, elem_of_nil.
  change (map ?f ?l) with (f <$> l). rewrite list_elem_of_fmap.
  split.
  - intros [[?|[?|[?|[]]]] | (o & ? & ?)]; simplify_eq; eauto 10.
  - intros [[-> ->]|[[-> ->]|[[-> ->]|(o & ? & -> & ->)]]]; eauto 10.
Qed.

Lemma wiring_captures tg dd opts :
  Forall (λ tl, captures dd tl.2) (wiring tg dd opts).
Proof.
  apply Forall_forall. intros [t l] Hin. apply elem_of_wiring in Hin.
  destruct Hin as [[_ ->]|[[_ ->]|[[_ ->]|(o & _ & _ & ->)]]]; done.
Qed.

Lemma listeners_on_nil t (ls : list (EventTarget * Listener)) :
  (∀ l, (t, l) ∉ ls) → listeners_on t ls = [].
Proof.
  intros Hnone. destruct (listeners_on t ls) as [|l ls'] eqn:Heq; [done|].
  exfalso. apply (Hnone l), elem_of_listeners_on. rewrite Heq. left.
Qed.

Lemma listeners_on_cons t t' l (ls : list (EventTarget * Listener)) :
  listeners_on t ((t', l) :: ls)
  = if decide (t' = t) then l :: listeners_on t ls else listeners_on t ls.
Proof.
  unfold listeners_on. rewrite filter_cons. cbn. by case_decide.
Qed.

Lemma listeners_on_plain tg dd opts n :
  plain tg dd opts n → listeners_on (TNode n) (wiring tg dd opts) = [].
Proof.
  intros (Htg & Hdd & Hopts). apply listeners_on_nil. intros l Hin.
  apply elem_of_wiring in Hin.
  destruct Hin as [[? _]|[[? _]|[[? _]|(o & ? & ? & _)]]]; simplify_eq; done.
Qed.

Lemma listeners_on_options dd opts t :
  (∀ o, o ∈ opts → t ≠ TNode o) →
  listeners_on t (map (λ o, (TNode o, OnOptionClick dd)) opts) = [].
Proof.
  intros Hne. apply listeners_on_nil. intros l Hin.
  change (map ?f ?l) with (f <$> l) in Hin.
  apply list_elem_of_fmap in Hin as (o & [= -> ->] & Ho).
  by apply (Hne o Ho).
Qed.

Lemma listeners_on_toggle tg dd opts :
  tg ≠ dd → tg ∉ opts →
  listeners_on (TNode tg) (wiring tg dd opts) = [OnToggleClick dd].
Proof.
  intros Hne Hopts. unfold wiring. cbn [app].
  rewrite !listeners_on_cons.
  rewrite decide_True by done. rewrite decide_False by done.
  rewrite decide_False by congruence.
  rewrite listeners_on_options; [done|]. intros o Ho [= ->]. done.
Qed.

Lemma listeners_on_dropdown tg dd opts :
  tg ≠ dd → dd ∉ opts →
  listeners_on (TNode dd) (wiring tg dd opts) = [OnDropdownClick].
Proof.
  intros Hne Hopts. unfold wiring. cbn [app].
  rewrite !listeners_on_cons.
  rewrite decide_False by congruence. rewrite decide_False by done.
  rewrite decide_True by done.
  rewrite listeners_on_options; [done|]. intros o Ho [= ->]. done.
Qed.


(** Nodes without listeners do not show in what a click fires. *)
Lemma fired_plain_prefix tg dd opts pre ts :
  Forall (plain tg dd opts) pre →
  fired (wiring tg dd opts) (map TNode pre ++ ts)
  = fired (wiring tg dd opts) ts.
Proof.
  induction 1 as [|n pre Hn Hpre IH]; [done|].
  cbn [map app]. rewrite fired_cons, (listeners_on_plain _ _ _ _ Hn). cbn.
  apply IH.
Qed.

Lemma elem_of_fired (ls : list (EventTarget * Listener)) ts l :
  l ∈ fired ls ts → ∃ t, t ∈ ts ∧ (t, l) ∈ ls.
Proof.
  induction ts as [|t ts IH]; [by rewrite elem_of_nil|]. rewrite fired_cons.
  rewrite elem_of_app. intros [Hhere | Hrest].
  - exists t. split; [left|]. by apply elem_of_listeners_on.
  - destruct (existsb stops (listeners_on t ls));
      [by apply elem_of_nil in Hrest|].
    destruct (IH Hrest) as (t' & Hin & Hl). exists t'. split; [by right|done].
Qed.

(** Only a click that reaches the toggle can fire the toggle. *)
Lemma toggle_fired tg dd opts ts :
  ToggleClick ∈ omap transition_of (fired (wiring tg dd opts) ts) →
  TNode tg ∈ ts.
Proof.
  rewrite list_elem_of_omap. intros (l & Hl & Htr).
  apply elem_of_fired in Hl as (t & Hin & Hw).
  apply elem_of_wiring in Hw.
  destruct Hw as [[-> _]|[[_ ->]|[[_ ->]|(o & _ & _ & ->)]]]; done.
Qed.


(** *** Clicks on a wired page *)

Lemma dispatch_effect tg dd opts path s :
  wired tg dd opts s →
  ∃ s', dispatch path s = (Normal tt, s') ∧
        wired tg dd opts s' ∧
        dropdown_open dd s'
        = dropdown_run (click_transitions (listeners s) path)
            (dropdown_open dd s).
Proof.
  intros (Hls & Hne & Hdd).
  destruct (propagate_effect dd (map TNode path ++ [TDocument]) s)
    as (s' & Hrun & Hls' & Hdd' & Hopen);
    [rewrite Hls; apply wiring_captures | done |].
  exists s'. split; [done|]. split; [|done].
  split; [congruence | done].
Qed.

Lemma dispatch_wired tg dd opts path s :
  wired tg dd opts s → wired tg dd opts (exec (dispatch path) s).
Proof.
  intros Hw. destruct (dispatch_effect tg dd opts path s Hw)
    as (s' & Hrun & Hw' & _).
  unfold exec. by rewrite Hrun.
Qed.

Lemma dispatch_dropdown tg dd opts path s :
  wired tg dd opts s →
  dropdown_open dd (exec (dispatch path) s)
  = dropdown_run (click_transitions (wiring tg dd opts) path)
      (dropdown_open dd s).
Proof.
  intros Hw. destruct (dispatch_effect tg dd opts path s Hw)
    as (s' & Hrun & _ & Hopen).
  unfold exec. rewrite Hrun. cbn. rewrite Hopen.
  by destruct Hw as (-> & _).
Qed.

Lemma path_targets (pre : list nat) n rest :
  map TNode (pre ++ n :: rest) ++ [TDocument]
  = map TNode pre ++ TNode n :: (map TNode rest ++ [TDocument]).
Proof. by rewrite map_app, <- app_assoc. Qed.

(** A click that reaches the toggle first flips the dropdown. *)
Lemma toggle_click_flips tg dd opts pre rest s :
  wired tg dd opts s →
  Forall (plain tg dd opts) pre → tg ∉ opts →
  dropdown_open dd (exec (dispatch (pre ++ tg :: rest)) s)
  = negb (dropdown_open dd s).
Proof.
  intros Hw Hpre Htg. rewrite (dispatch_dropdown tg dd opts) by done.
  unfold click_transitions. rewrite path_targets, fired_plain_prefix by done.
  rewrite fired_cons. destruct Hw as (_ & Hne & _).
  rewrite listeners_on_toggle by done. reflexivity.
Qed.




(** ** Removing the children of an element *)

Lemma kill_below_elem dy (l : list Slot) :
  elem <$> kill_below dy l = elem <$> l.
Proof.
  induction l as [|sl l IH]; [done|]. cbn [kill_below].
  destruct (live sl); [destruct (dy <? depth sl)|]; cbn; by rewrite ?IH.
Qed.

Lemma kill_below_depth dy (l : list Slot) :
  depth <$> kill_below dy l = depth <$> l.
Proof.
  induction l as [|sl l IH]; [done|]. cbn [kill_below].
  destruct (live sl); [destruct (dy <? depth sl)|]; cbn; by rewrite ?IH.
Qed.

Lemma kill_below_live dy (l : list Slot) n sl' :
  kill_below dy l !! n = Some sl' → live sl' = true →
  ∃ sl, l !! n = Some sl ∧ live sl = true.
Proof.
  revert n. induction l as [|sl l IH]; intros n; [done|]. cbn [kill_below].
  destruct (live sl) eqn:Hlive.
  - destruct (dy <? depth sl); [|by eauto].
    destruct n as [|n]; cbn; [by intros [= <-] | apply IH].
  - destruct n as [|n]; cbn; [|apply IH].
    intros [= <-] Hl. congruence.
Qed.

(** Removing children changes no element, only which ones are in the
    document. *)
Lemma detach_children_elem r d :
  elem <$> slots (detach_children r d) = elem <$> slots d.
Proof.
  destruct r as [|n]; unfold slots; cbn [detach_children].
  - cbn. f_equal. rewrite <- list_fmap_compose. by apply list_fmap_ext.
  - destruct (inner d !! n) as [sl|]; [|done]. cbn. f_equal.
    rewrite fmap_app, kill_below_elem, <- fmap_app.
    by rewrite take_drop.
Qed.

Lemma detach_children_depth r d :
  depth <$> slots (detach_children r d) = depth <$> slots d.
Proof.
  destruct r as [|n]; unfold slots; cbn [detach_children].
  - cbn. f_equal. rewrite <- list_fmap_compose. by apply list_fmap_ext.
  - destruct (inner d !! n) as [sl|]; [|done]. cbn. f_equal.
    rewrite fmap_app, kill_below_depth, <- fmap_app.
    by rewrite take_drop.
Qed.

Lemma element_at_detach r d n :
  element_at (detach_children r d) n = element_at d n.
Proof.
  unfold element_at.
  rewrite <- !list_lookup_fmap. by rewrite detach_children_elem.
Qed.

(** What is in the document afterwards was in it before. *)
Lemma is_live_detach r d n :
  is_live (detach_children r d) n = true → is_live d n = true.
Proof.
  unfold is_live. destruct n as [|n]; [by destruct r|].
  change (slots (detach_children r d) !! S n)
    with (inner (detach_children r d) !! n).
  change (slots d !! S n) with (inner d !! n).
  destruct r as [|k]; cbn [detach_children inner].
  - rewrite list_lookup_fmap. by destruct (inner d !! n).
  - destruct (inner d !! k) as [sl0|] eqn:Hk; [|done]. cbn [inner].
    pose proof (lookup_lt_Some _ _ _ Hk) as Hlen.
    destruct (decide (n < S k)) as [Hlt|Hge].
    + rewrite lookup_app_l by (rewrite length_take; lia).
      by rewrite lookup_take_lt.
    + rewrite lookup_app_r by (rewrite length_take; lia).
      rewrite length_take.
      replace (S k `min` length (inner d)) with (S k) by lia.
      destruct (kill_below (depth sl0) (drop (S k) (inner d)) !! (n - S k))
        as [sl'|] eqn:Hsl'; [|done].
      intros Hlive.
      destruct (kill_below_live _ _ _ _ Hsl' Hlive) as (sl & Hsl & Hl).
      rewrite lookup_drop in Hsl.
      replace (S k + (n - S k)) with n in Hsl by lia. by rewrite Hsl.
Qed.

Lemma element_at_set_textContent y txt d n :
  element_at (set_textContent y txt d) n
  = if decide (y = n) then with_text txt <$> element_at d y
    else element_at d n.
Proof.
  unfold set_textContent. rewrite element_at_update, !element_at_detach.
  done.
Qed.

Lemma is_live_set_textContent y txt d n :
  is_live (set_textContent y txt d) n = true → is_live d n = true.
Proof.
  unfold set_textContent. rewrite is_live_update. apply is_live_detach.
Qed.

Lemma body_className_set_textContent y txt d :
  body_className (set_textContent y txt d) = body_className d.
Proof.
  unfold body_className.
  assert (H : className <$> element_at (set_textContent y txt d) 0
              = className <$> element_at d 0).
  { rewrite element_at_set_textContent. case_decide; [subst|done].
    by destruct (element_at d 0). }
  unfold element_at, slots in H. cbn in H. by injection H.
Qed.

Lemma options_synced_set_textContent theme y txt d :
  options_synced theme d → options_synced theme (set_textContent y txt d).
Proof.
  intros Hsync n e He Hlive Hc. apply is_live_set_textContent in Hlive.
  rewrite element_at_set_textContent in He.
  case_decide as Hn; [subst n | by apply (Hsync n)].
  destruct (element_at d y) as [e0|] eqn:He0; [|done].
  injection He as <-. apply (Hsync y e0 He0 Hlive Hc).
Qed.

(** ** Clicks on elements *)

Lemma click_run n s :
  click n s
  = match click_path (document s) n with
    | Some path => dispatch path s
    | None => (Normal tt, s)
    end.
Proof.
  unfold click. rewrite bind_run. unfold gets.
  by destruct (click_path (document s) n).
Qed.

Lemma click_wired tg dd opts n s :
  wired tg dd opts s → wired tg dd opts (exec (click n) s).
Proof.
  intros Hw. unfold exec. rewrite click_run.
  destruct (click_path (document s) n) as [path|]; [|done].
  by apply dispatch_wired.
Qed.

Lemma exec_click n path s :
  click_path (document s) n = Some path →
  exec (click n) s = exec (dispatch path) s.
Proof. intros Hp. unfold exec. by rewrite click_run, Hp. Qed.

(** A click starts at its target, which is in the document, and passes
    through the body last. *)
Lemma click_path_ends d n path :
  click_path d n = Some path →
  is_live d n = true ∧ head path = Some n ∧ last path = Some 0.
Proof.
  unfold click_path. destruct (is_live d n) eqn:Hlive; [|done].
  intros [= <-]. split; [done|]. split; [done|].
  destruct n as [|n]; [done|]. cbn [ancestors].
  unfold is_live in Hlive. change (slots d !! S n) with (inner d !! n) in Hlive.
  destruct (inner d !! n) as [sl|]; [|done].
  change (S n :: ?l ++ [0]) with ((S n :: l) ++ [0]). apply last_snoc.
Qed.

(** ** Initialisation *)

Lemma themed_getElementById i theme d :
  getElementById i (themed theme d) = getElementById i d.
Proof.
  unfold getElementById. rewrite slots_themed. f_equal.
  etrans; [apply positions_map|].
  - intros sl. unfold has_id.
    by destruct (sync_slot_frame theme sl) as (_ & -> & -> & _).
  - unfold set_body_className. rewrite slots_update_element.
    by apply positions_alter.
Qed.

Lemma foldl_with_listener {A} (f : A → EventTarget * Listener) xs s :
  foldl (λ s x, with_listener (f x) s) s xs
  = mkState (document s) (localStorage s) (window s) (world s)
            (listeners s ++ map f xs) (calls s) (year_now s).
Proof.
  revert s. induction xs as [|x xs IH]; intros s; cbn [foldl map].
  - rewrite app_nil_r. by destruct s.
  - rewrite IH. cbn. by rewrite <- app_assoc.
Qed.

(** Without the toggle or without the dropdown, initialisation is
    [loadTheme] and nothing more. *)
Lemma init_without_controls s :
  getElementById "themeToggle" (document s) = None ∨
  getElementById "themeDropdown" (document s) = None →
  init s = loadTheme s.
Proof.
  intros Hmiss. unfold init. rewrite bind_run, loadTheme_run.
  rewrite bind_run. unfold gets at 1. rewrite bind_run. unfold gets at 1.
  cbn [document with_document]. rewrite !themed_getElementById.
  destruct Hmiss as [-> | ->]; [done|].
  by destruct (getElementById "themeToggle" (document s)).
Qed.

(** With both, it registers the listeners on the page that [loadTheme]
    left and then writes the year. *)
Lemma init_with_controls tg dd s :
  getElementById "themeToggle" (document s) = Some tg →
  getElementById "themeDropdown" (document s) = Some dd →
  init s
  = (Normal tt,
     mkState
       (match getElementById "year" (document s) with
        | Some y =>
            set_textContent y (pretty (year_now s))
              (themed (JString (saved s)) (document s))
        | None => themed (JString (saved s)) (document s)
        end)
       (localStorage s) (window s) (world s)
       (listeners s
        ++ wiring tg dd
             (querySelectorAll "theme-option"
                (themed (JString (saved s)) (document s))))
       (calls s) (year_now s)).
Proof.
  intros Htg Hdd. unfold init. rewrite bind_run, loadTheme_run.
  rewrite bind_run. unfold gets at 1. rewrite bind_run. unfold gets at 1.
  cbn [document with_document]. rewrite !themed_getElementById, Htg, Hdd.
  do 3 (rewrite bind_run; unfold addEventListener at 1, modify at 1).
  rewrite bind_run. unfold gets at 1.
  rewrite bind_run. unfold addEventListener.
  rewrite forEach_modify, foldl_with_listener.
  rewrite bind_run. unfold gets at 1.
  cbn [document with_document with_listener listeners localStorage
       window world calls year_now].
  rewrite themed_getElementById.
  rewrite <- !app_assoc.
  destruct (getElementById "year" (document s)) as [y|]; [|done].
  rewrite bind_run. unfold gets, modify. done.
Qed.

Lemma exec_loadTheme s :
  exec loadTheme s = with_document (themed (JString (saved s))) s.
Proof. unfold exec. by rewrite loadTheme_run. Qed.

Lemma init_normal s : outcome init s = Normal tt.
Proof.
  unfold outcome.
  destruct (getElementById "themeToggle" (document s)) as [tg|] eqn:Htg.
  - destruct (getElementById "themeDropdown" (document s)) as [dd|] eqn:Hdd.
    + by rewrite (init_with_controls tg dd).
    + rewrite init_without_controls by auto. by rewrite loadTheme_run.
  - rewrite init_without_controls by auto. by rewrite loadTheme_run.
Qed.




(** Initialisation of a page that has both controls wires it. *)
Lemma init_wired tg dd s0 :
  listeners s0 = [] →
  getElementById "themeToggle" (document s0) = Some tg →
  getElementById "themeDropdown" (document s0) = Some dd →
  wired tg dd (querySelectorAll "theme-option" (document (exec loadTheme s0)))
        (exec init s0).
Proof.
  intros Hnil Htg Hdd. rewrite exec_loadTheme. unfold exec.
  rewrite (init_with_controls tg dd) by done. cbn [snd].
  apply getElementById_Some in Htg as (e1 & He1 & _ & Hid1).
  apply getElementById_Some in Hdd as (e2 & He2 & _ & Hid2).
  split; [by rewrite Hnil|]. split; [intros ->; congruence|].
  cbn [document].
  assert (Hthemed : is_Some (element_at
            (themed (JString (saved s0)) (document s0)) dd))
    by (apply themed_is_Some; eauto).
  destruct (getElementById "year" (document s0)); [|done].
  rewrite element_at_set_textContent. case_decide; subst; [|done].
  destruct Hthemed as [e ->]. by eexists.
Qed.

Lemma reachable_wired tg dd s0 s :
  listeners s0 = [] →
  getElementById "themeToggle" (document s0) = Some tg →
  getElementById "themeDropdown" (document s0) = Some dd →
  reachable s0 s →
  wired tg dd (querySelectorAll "theme-option" (document (exec loadTheme s0)))
        s.
Proof.
  intros Hnil Htg Hdd. induction 1 as [|s n Hreach IH].
  - by apply init_wired.
  - by apply click_wired.
Qed.

Lemma run_toggle_click dd this s :
  run_listener (OnToggleClick dd) this s
  = (Normal true,
     with_document
       (update_element dd (with_className (DOMTokenList.toggle "open"))) s).
Proof. reflexivity. Qed.

Lemma toggle_listener_twice dd this s :
  dropdown_open dd
    (exec (run_listener (OnToggleClick dd) this)
       (exec (run_listener (OnToggleClick dd) this) s))
  = dropdown_open dd s.
Proof.
  unfold exec. rewrite !run_toggle_click. cbn [snd].
  rewrite dropdown_open_update. cbn [document with_document].
  rewrite element_at_update. rewrite decide_True by done.
  unfold dropdown_open.
  destruct (element_at (document s) dd) as [e|]; [|done]. cbn.
  unfold has_class. cbn.
  rewrite !TokenFacts.contains_toggle by apply TokenFacts.token_open.
  apply negb_involutive.
Qed.

(** ** The dropdown state machine *)


(** C6. Running the toggle's click listener twice in succession leaves
    the dropdown open if it was open and closed if it was closed; on a
    page wired by initialisation, whatever has happened to it since, two
    successive click events that reach the toggle before any other
    element with a listener do the same, whatever their paths; and so do
    two successive clicks on elements of the page in every state reached
    after initialisation. *)
Theorem toggle_twice_restores :
  (∀ dd this s,
     dropdown_open dd
       (exec (run_listener (OnToggleClick dd) this)
          (exec (run_listener (OnToggleClick dd) this) s))
     = dropdown_open dd s) ∧
  (∀ tg dd opts s pre rest pre' rest',
     wired tg dd opts s →
     Forall (plain tg dd opts) pre → Forall (plain tg dd opts) pre' →
     tg ∉ opts →
     dropdown_open dd
       (exec (dispatch (pre' ++ tg :: rest'))
          (exec (dispatch (pre ++ tg :: rest)) s))
     = dropdown_open dd s) ∧
  (∀ tg dd opts s0 s n n' pre rest pre' rest',
     listeners s0 = [] →
     getElementById "themeToggle" (document s0) = Some tg →
     getElementById "themeDropdown" (document s0) = Some dd →
     opts = querySelectorAll "theme-option" (document (exec loadTheme s0)) →
     reachable s0 s →
     click_path (document s) n = Some (pre ++ tg :: rest) →
     click_path (document (exec (click n) s)) n' = Some (pre' ++ tg :: rest') →
     Forall (plain tg dd opts) pre → Forall (plain tg dd opts) pre' →
     tg ∉ opts →
     dropdown_open dd (exec (click n') (exec (click n) s))
     = dropdown_open dd s).
Proof.
  split; [apply toggle_listener_twice|]. split.
  - intros tg dd opts s pre rest pre' rest' Hw Hpre Hpre' Hopt.
    rewrite (toggle_click_flips tg dd opts pre' rest') by
      (try apply dispatch_wired; done).
    rewrite (toggle_click_flips tg dd opts pre rest) by done.
    apply negb_involutive.
  - intros tg dd opts s0 s n n' pre rest pre' rest' Hnil Htg Hdd -> Hreach
      Hp Hp' Hpre Hpre' Hopt.
    pose proof (reachable_wired tg dd s0 s Hnil Htg Hdd Hreach) as Hw.
    rewrite (exec_click _ _ _ Hp'), (exec_click _ _ _ Hp).
    rewrite (toggle_click_flips tg dd _ pre' rest') by
      (try apply dispatch_wired; done).
    rewrite (toggle_click_flips tg dd _ pre rest) by done.
    apply negb_involutive.
Qed.

End Proofs.

(** ** The script on the sample pages *)

(** C8 (the code at the failing input). On a page without the toggle
    that has a footer year element, initialisation returns normally and
    applies the theme, registers no listener, and leaves the year
    element empty, although the year to show is 2026. *)
Theorem init_without_toggle_skips_year :
  getElementById "themeToggle" (document (Sample.load Sample.bare_page Sample.fresh))
  = None ∧
  getElementById "year" (document (Sample.load Sample.bare_page Sample.fresh))
  = Some 2 ∧
  outcome init (Sample.load Sample.bare_page Sample.fresh) = Normal tt ∧
  body_className
    (document (exec init (Sample.load Sample.bare_page Sample.fresh)))
  = "theme-current" ∧
  listeners (exec init (Sample.load Sample.bare_page Sample.fresh)) = [] ∧
  text <$>
    element_at
      (document (exec init (Sample.load Sample.bare_page Sample.fresh))) 2
  = Some "" ∧
  pretty (year_now (Sample.load Sample.bare_page Sample.fresh)) = "2026".
Proof. vm_compute. repeat split. Qed.

(** With both controls on the page, the same handler does set the year. *)
Lemma init_sets_year {World : Type} tg dd y (s : @State World) :
  getElementById "themeToggle" (document s) = Some tg →
  getElementById "themeDropdown" (document s) = Some dd →
  getElementById "year" (document s) = Some y →
  text <$> element_at (document (exec init s)) y
  = Some (pretty (year_now s)).
Proof.
  intros Htg Hdd Hy. unfold exec.
  rewrite (init_with_controls tg dd) by done. cbn [snd document]. rewrite Hy.
  rewrite element_at_set_textContent, decide_True by done.
  apply getElementById_Some in Hy as (e & He & _).
  destruct (themed_is_Some (JString (saved s)) y (document s)) as [e' ->];
    [by eexists | done].
Qed.

Example portal_page_year :
  text <$> element_at (document Sample.ready) 5 = Some "2026".
Proof. reflexivity. Qed.

Example portal_page_listeners :
  listeners Sample.ready = wiring 1 2 [3; 4].
Proof. reflexivity. Qed.

(** A click on the second option passes through the dropdown and the
    body. *)
Example portal_page_path :
  click_path (document Sample.opened) 4 = Some [4; 2; 0].
Proof. reflexivity. Qed.

(** The hooks of the sample page: only the map recolouring is a
    function; it ran once and saw the new body class. *)
Example setTheme_on_portal_page :
  calls (exec (setTheme (JString "theme-dark")) Sample.ready) = [recolorMap] ∧
  world (exec (setTheme (JString "theme-dark")) Sample.ready) = (1, 10).
Proof. vm_compute. done. Qed.

(** Over quota, the old entry stays and the theme is applied all the
    same. *)
Example setTheme_over_quota :
  stored_theme
    (exec (setTheme (JString "theme-current"))
       (Sample.load Sample.portal_page Sample.exhausted))
  = Some "theme-dark" ∧
  body_className
    (document
       (exec (setTheme (JString "theme-current"))
          (Sample.load Sample.portal_page Sample.exhausted)))
  = "theme-current".
Proof. vm_compute. done. Qed.

(** An option without a data-theme attribute selects [undefined]. *)
Example applyTheme_undefined :
  body_className
    (document (exec (applyTheme JUndefined) Sample.loaded)) = "undefined".
Proof. reflexivity. Qed.

(** Assigning the year removes what the year element held. *)
Example footer_page_year :
  (λ sl, (live sl, text (elem sl))) <$> slots (document (exec init Visit.footer))
  = [(true, ""); (true, "THEMES"); (true, ""); (true, "2026");
     (false, "1999"); (true, "map")].
Proof. reflexivity. Qed.

(** With the class of the options stored as the theme, the body is a
    theme option when the listeners are registered: a click anywhere
    selects [undefined]. *)
Example tagged_page_click :
  listeners (exec init Visit.tagged)
  = wiring 1 2 [0] ∧
  body_className (document (exec (click 3) (exec init Visit.tagged)))
  = "undefined" ∧
  stored_theme (exec (click 3) (exec init Visit.tagged)) = Some "undefined".
Proof. vm_compute. done. Qed.

(** C1 (as stated) fails: with storage disabled, a click on the option
    carrying ["theme-dark"] leaves nothing in the store. *)
Lemma option_click_without_storage :
  ¬ ∀ (s : @State (nat * nat)) (dd i : nat) (e : Element) (t : string),
      element_at (document s) i = Some e →
      data_theme e = Some t →
      ∃ s', run_listener (OnOptionClick dd) (TNode i) s = (Normal false, s') ∧
            selected t dd s'.
Proof.
  intros Hclaim.
  destruct (Hclaim (Sample.load Sample.portal_page Sample.disabled) 2 4
              _ "theme-dark" eq_refl eq_refl) as (s' & Hrun & Hstored & _).
  apply (f_equal snd) in Hrun. cbn [snd] in Hrun. subst s'.
  vm_compute in Hstored. discriminate.
Qed.

(** The other two conditions of C1 (amended) are needed as well: the
    option whose identifier spells the script's own classes leaves the
    body with the class [theme-option], and on the page whose body is
    the dropdown the identifier with two spaces reaches the body class
    with one. *)
Example option_click_spelled :
  body_className
    (document (exec (run_listener (OnOptionClick 2) (TNode 4))
                 (exec init Visit.spelling)))
  = "theme-option".
Proof. reflexivity. Qed.

Example option_click_body_menu :
  data_theme <$> element_at (document (exec init Visit.body_menu)) 3
  = Some (Some "wide  dark") ∧
  body_className
    (document (exec (run_listener (OnOptionClick 0) (TNode 3))
                 (exec init Visit.body_menu)))
  = "wide dark".
Proof. vm_compute. done. Qed.

(** C3 (as stated) fails: for the identifier that contains the class
    tokens [theme-option] and [is-active], the body is itself a theme
    option without that data-theme, and [applyTheme] takes the mark off
    again. *)
Lemma applyTheme_spelled_body_class :
  ¬ ∀ (s : @State (nat * nat)) (t : string),
      body_className (document (exec (applyTheme (JString t)) s)) = t.
Proof.
  intros Hclaim. specialize (Hclaim Visit.spelling Visit.spelled).
  vm_compute in Hclaim. discriminate.
Qed.


(** ** Witnesses *)

Lemma option_click_selects_witness :
  selected "theme-dark" 2
    (exec (run_listener (OnOptionClick 2) (TNode 4)) Sample.opened).
Proof.
  destruct (option_click_selects 2 4
              (mkElement None "theme-option" (Some "theme-dark") "Dark")
              "theme-dark" Sample.opened)
    as (s' & Hrun & Hsel);
    [reflexivity | reflexivity | reflexivity | reflexivity
    | compute_done | lia |].
  unfold exec. rewrite Hrun. exact Hsel.
Defined.

Lemma applyTheme_sets_class_witness :
  body_className
    (document (exec (applyTheme (JString "theme-dark")) Sample.loaded))
  = "theme-dark".
Proof.
  destruct (applyTheme_sets_class_and_marks_options "theme-dark" Sample.loaded)
    as (_ & Hbody & _).
  apply Hbody. compute_done.
Defined.

Lemma storage_failure_is_swallowed_witness :
  (outcome (setTheme (JString "theme-dark"))
     (Sample.load Sample.portal_page Sample.disabled) = Normal tt ∧
   body_className
     (document (exec (setTheme (JString "theme-dark"))
                  (Sample.load Sample.portal_page Sample.disabled)))
   = "theme-dark") ∧
  (outcome loadTheme (Sample.load Sample.portal_page Sample.disabled)
   = Normal tt ∧
   body_className
     (document (exec loadTheme
                  (Sample.load Sample.portal_page Sample.disabled)))
   = "theme-current").
Proof.
  destruct (storage_failure_is_swallowed (JString "theme-dark")
              (Sample.load Sample.portal_page Sample.disabled) SecurityError)
    as [Hset Hload].
  destruct (Hset eq_refl) as (Hok & Hdoc & _).
  destruct (Hload eq_refl) as (Hok' & Hs).
  split; split; [exact Hok | by rewrite Hdoc | exact Hok' | by rewrite Hs].
Defined.

Lemma loadTheme_defaults_witness :
  stored_theme Sample.loaded = None ∧
  body_className (document (exec loadTheme Sample.loaded)) = "theme-current".
Proof.
  split; [reflexivity|].
  apply (loadTheme_defaults Sample.loaded). left. reflexivity.
Defined.

Lemma loadTheme_empty_string_is_absent_witness :
  stored_theme (Sample.load Sample.portal_page Sample.blank) = Some "" ∧
  body_className
    (document (exec loadTheme (Sample.load Sample.portal_page Sample.blank)))
  = "theme-current".
Proof.
  split; [reflexivity|].
  apply (loadTheme_empty_string_is_absent
           (Sample.load Sample.portal_page Sample.blank)).
  reflexivity.
Defined.

Lemma loadTheme_does_not_persist_witness :
  stored_theme Sample.loaded = None ∧
  body_className (document (exec loadTheme Sample.loaded)) = DEFAULT ∧
  stored_theme (exec loadTheme Sample.loaded) = None.
Proof.
  split; [reflexivity|].
  destruct (loadTheme_does_not_persist Sample.loaded) as (_ & _ & Hnone).
  apply Hnone. reflexivity.
Defined.




Lemma toggle_twice_restores_witness :
  dropdown_open 2 (exec (click 1) (exec (click 1) Sample.opened))
  = dropdown_open 2 Sample.opened.
Proof.
  destruct (@toggle_twice_restores (nat * nat)) as (_ & _ & Hclicks).
  apply (Hclicks 1 2 [3; 4] Sample.loaded Sample.opened 1 1 [] [0] [] [0]);
    [reflexivity | reflexivity | reflexivity | reflexivity
    | apply reach_click, reach_init | reflexivity | reflexivity
    | constructor | constructor | compute_done].
Defined.

(** * Further properties of the script *)

Section More.

Context {World : Type}.
Implicit Types (s : @State World) (d : Document) (e : Element).
Implicit Types (theme : JSValue).

#[local] Arguments themed : simpl never.
#[local] Arguments saved : simpl never.
#[local] Arguments persisted : simpl never.
#[local] Arguments notified : simpl never.

(** ** Clicks never throw and are replays *)

Lemma run_listener_normal l this s :
  run_listener l this s = (Normal (stops l), exec (run_listener l this) s).
Proof.
  destruct l; try reflexivity.
  unfold exec. by rewrite run_option_click.
Qed.

Lemma run_listener_listeners l this s :
  listeners (exec (run_listener l this) s) = listeners s.
Proof.
  destruct l; try reflexivity.
  unfold exec. rewrite run_option_click. cbn. apply setTheme_listeners.
Qed.

Lemma replay_app fs1 fs2 s :
  replay (fs1 ++ fs2) s = replay fs2 (replay fs1 s).
Proof. unfold replay. apply foldl_app. Qed.

Lemma replay_listeners fs s : listeners (replay fs s) = listeners s.
Proof.
  revert s. induction fs as [|[t l] fs IH]; intros s; [done|].
  change (replay ((t, l) :: fs) s)
    with (replay fs (exec (run_listener l t) s)).
  rewrite IH. apply run_listener_listeners.
Qed.

Lemma run_listeners_replay ls this s :
  run_listeners ls this s
  = (Normal (existsb stops ls), replay (map (pair this) ls) s).
Proof.
  revert s. induction ls as [|l ls IH]; intros s; [done|].
  cbn [run_listeners]. rewrite bind_run. unfold try_catch.
  rewrite run_listener_normal, bind_run, IH. reflexivity.
Qed.

Lemma propagate_replay ts s :
  propagate ts s = (Normal tt, replay (fired_on (listeners s) ts) s).
Proof.
  revert s. induction ts as [|t ts IH]; intros s; [done|].
  cbn [propagate fired_on]. rewrite bind_run. unfold fire.
  rewrite bind_run. unfold gets at 1. rewrite run_listeners_replay.
  rewrite replay_app.
  destruct (existsb stops (listeners_on t (listeners s))); [done|].
  rewrite IH, replay_listeners. reflexivity.
Qed.

Lemma exec_dispatch path s :
  exec (dispatch path) s
  = replay (fired_on (listeners s) (map TNode path ++ [TDocument])) s.
Proof. unfold exec, dispatch. by rewrite propagate_replay. Qed.

(** A click is the replay of the listeners it fires; a click on an
    element that is not in the document fires none. *)
Lemma click_replay n s :
  exec (click n) s
  = match click_path (document s) n with
    | Some path =>
        replay (fired_on (listeners s) (map TNode path ++ [TDocument])) s
    | None => s
    end.
Proof.
  unfold exec. rewrite click_run.
  destruct (click_path (document s) n) as [path|]; [|done].
  apply exec_dispatch.
Qed.


(** ** Selecting, reloading, selecting again *)

Lemma setTheme_storage_eq theme s :
  localStorage (exec (setTheme theme) s)
  = if writable s
    then mkStorage (<[STORAGE_KEY := ToString theme]>
                      (items (localStorage s)))
                   (denied (localStorage s)) (full (localStorage s))
    else localStorage s.
Proof.
  rewrite setTheme_storage. unfold persisted, writable, with_items.
  by destruct (denied (localStorage s)), (full (localStorage s)).
Qed.

Lemma setTheme_frame theme s :
  window (exec (setTheme theme) s) = window s ∧
  calls (exec (setTheme theme) s) = calls s ++ hooks_present (window s) ∧
  year_now (exec (setTheme theme) s) = year_now s.
Proof.
  unfold exec. rewrite setTheme_run. cbn [snd].
  destruct (persisted_frame theme s) as (_ & Hw & _ & Hc & _).
  destruct (notified_frame
              (with_document (themed theme) (persisted theme s)))
    as (_ & _ & _ & Hnw & Hny).
  rewrite Hnw, Hny, notified_calls. cbn. rewrite Hw, Hc.
  split; [done|]. split; [done|].
  unfold persisted.
  by destruct (denied (localStorage s) || full (localStorage s)).
Qed.

(** [loadTheme] is [applyTheme] on the saved identifier. *)
Lemma loadTheme_applies s :
  exec loadTheme s = exec (applyTheme (JString (saved s))) s.
Proof. unfold exec. by rewrite loadTheme_run, applyTheme_run. Qed.

Lemma exec_applyTheme theme s :
  exec (applyTheme theme) s = with_document (themed theme) s.
Proof. unfold exec. by rewrite applyTheme_run. Qed.

(** X1. What a later page load does after a selection: if the write
    succeeded, it applies the selected identifier, or the default when
    that identifier is the empty string; if the write threw, it applies
    what a page load would have applied before the selection.  The body
    class is then the applied identifier, provided this does not contain
    the class token [theme-option]. *)
Theorem selection_survives_reload theme s s2 :
  localStorage s2 = localStorage (exec (setTheme theme) s) →
  exec loadTheme s2
  = exec (applyTheme
            (JString (if writable s
                      then if decide (ToString theme = "") then DEFAULT
                           else ToString theme
                      else saved s))) s2 ∧
  ("theme-option" ∉ DOMTokenList.tokens
      (if writable s
       then if decide (ToString theme = "") then DEFAULT else ToString theme
       else saved s) →
   body_className (document (exec loadTheme s2))
   = if writable s
     then if decide (ToString theme = "") then DEFAULT else ToString theme
     else saved s).
Proof.
  intros Hst.
  assert (Hsaved : saved s2
                   = if writable s
                     then if decide (ToString theme = "") then DEFAULT
                          else ToString theme
                     else saved s).
  { unfold saved at 1. rewrite Hst, setTheme_storage_eq.
    unfold writable, saved.
    destruct (localStorage s) as [it [] []]; cbn; try done.
    rewrite lookup_insert_eq. unfold js_or.
    destruct (decide (ToString theme = "")) as [Heq | Hne].
    - by rewrite bool_decide_eq_true_2.
    - by rewrite bool_decide_eq_false_2. }
  rewrite loadTheme_applies, Hsaved. split; [done|].
  intros Htag. rewrite exec_applyTheme. cbn [document with_document].
  by apply (themed_body_untagged (JString _)).
Qed.

Lemma sync_option_idempotent theme e :
  sync_option theme (sync_option theme e) = sync_option theme e.
Proof.
  unfold sync_option, with_className. cbn. f_equal.
  apply TokenFacts.toggle_force_idempotent, TokenFacts.token_active.
Qed.

Lemma sync_slot_idempotent theme sl :
  sync_slot theme (sync_slot theme sl) = sync_slot theme sl.
Proof.
  unfold sync_slot at 2.
  destruct (live sl && has_class "theme-option" (elem sl)) eqn:Htag;
    unfold sync_slot; [|by rewrite Htag].
  cbn [live elem on_elem]. rewrite sync_option_has_class, Htag by done.
  unfold on_elem. cbn. by rewrite sync_option_idempotent.
Qed.

Lemma themed_idempotent theme d :
  themed theme (themed theme d) = themed theme d.
Proof.
  assert (Hb : with_className (λ _, ToString theme) (body (themed theme d))
               = with_className (λ _, ToString theme) (body d)).
  { unfold themed, sync_slot. cbn [body live elem]. by destruct (_ && _). }
  assert (Hi : sync_slot theme <$> inner (themed theme d)
               = inner (themed theme d)).
  { unfold themed. cbn [inner]. rewrite <- list_fmap_compose.
    apply list_fmap_ext. intros _ sl _. apply sync_slot_idempotent. }
  unfold themed at 1. rewrite Hb, Hi. reflexivity.
Qed.

(** X2. Selecting the same theme a second time leaves the page and the
    store exactly as the first selection left them; the hooks that are
    present are notified again. *)
Theorem reselecting_changes_nothing theme s :
  document (exec (setTheme theme) (exec (setTheme theme) s))
  = document (exec (setTheme theme) s) ∧
  localStorage (exec (setTheme theme) (exec (setTheme theme) s))
  = localStorage (exec (setTheme theme) s) ∧
  calls (exec (setTheme theme) (exec (setTheme theme) s))
  = calls s ++ hooks_present (window s) ++ hooks_present (window s).
Proof.
  destruct (setTheme_frame theme s) as (Hw & Hc & _).
  destruct (setTheme_frame theme (exec (setTheme theme) s)) as (_ & Hc2 & _).
  split; [|split].
  - rewrite !setTheme_document. apply themed_idempotent.
  - rewrite (setTheme_storage_eq theme (exec (setTheme theme) s)).
    unfold writable. rewrite setTheme_storage_eq. unfold writable.
    destruct (localStorage s) as [it [] []]; cbn; try done.
    by rewrite insert_insert_eq.
  - rewrite Hc2, Hw, Hc. by rewrite <- app_assoc.
Qed.

(** ** Initialisation, in full *)

(** Whether or not the controls are there, [init] is [loadTheme]
    followed by changes to the listeners and the year element only. *)
Lemma init_cases s :
  (∃ tg dd,
     getElementById "themeToggle" (document s) = Some tg ∧
     getElementById "themeDropdown" (document s) = Some dd) ∨
  (init s = loadTheme s ∧
   match getElementById "themeToggle" (document s),
         getElementById "themeDropdown" (document s) with
   | Some _, Some _ => False
   | _, _ => True
   end).
Proof.
  destruct (getElementById "themeToggle" (document s)) as [tg|] eqn:Htg;
    [|right; split; [apply init_without_controls; auto | done]].
  destruct (getElementById "themeDropdown" (document s)) as [dd|] eqn:Hdd;
    [left; eauto|].
  right. split; [apply init_without_controls; auto | done].
Qed.

(** X3. A page load only reads the store and notifies nobody: after
    [init] the store is as before, no hook has been called, the feature
    state is untouched, and the body class is the one [loadTheme]
    applies, with or without the dropdown controls. *)
Theorem page_load_reads_only s :
  localStorage (exec init s) = localStorage s ∧
  calls (exec init s) = calls s ∧
  world (exec init s) = world s ∧
  body_className (document (exec init s))
  = body_className (document (exec loadTheme s)).
Proof.
  destruct (init_cases s) as [(tg & dd & Htg & Hdd) | [Heq _]].
  - unfold exec at 1 2 3 4. rewrite (init_with_controls tg dd) by done.
    cbn [snd localStorage calls world document].
    split; [done|]. split; [done|]. split; [done|].
    rewrite exec_loadTheme. cbn [document with_document].
    destruct (getElementById "year" (document s)); [|done].
    apply body_className_set_textContent.
  - unfold exec. rewrite Heq, loadTheme_run. done.
Qed.

(** The classes of the body once the theme is applied are those of the
    theme, [is-active] aside. *)
Lemma themed_body_has_class theme d c :
  c ≠ "is-active" →
  has_class c (body (themed theme d))
  = DOMTokenList.contains c (ToString theme).
Proof.
  intros Hc. unfold themed. cbn [body].
  destruct (sync_slot_frame theme
              (mkSlot 0 true
                 (with_className (λ _, ToString theme) (body d))))
    as (_ & _ & _ & _ & _ & Hcls).
  by rewrite Hcls.
Qed.

(** X4. The listeners [init] registers: none when the toggle or the
    dropdown is missing; otherwise, after those already there, one on
    the toggle, one on the document, one on the dropdown and one on
    each element that carries the class [theme-option] once
    [loadTheme] has run, in document order, each such element once.
    These are the elements inside the body that carry the class in the
    loaded page and are in the document, and the body itself exactly
    when the theme that [loadTheme] applies contains the class token
    [theme-option]. *)
Theorem init_registers_listeners s :
  listeners (exec init s)
  = listeners s
    ++ match getElementById "themeToggle" (document s),
             getElementById "themeDropdown" (document s) with
       | Some tg, Some dd =>
           wiring tg dd
             (querySelectorAll "theme-option" (document (exec loadTheme s)))
       | _, _ => []
       end ∧
  NoDup (querySelectorAll "theme-option" (document (exec loadTheme s))) ∧
  (∀ n : nat,
     S n ∈ querySelectorAll "theme-option" (document (exec loadTheme s)) ↔
     ∃ e, element_at (document s) (S n) = Some e ∧
          is_live (document s) (S n) = true ∧
          has_class "theme-option" e = true) ∧
  (0 ∈ querySelectorAll "theme-option" (document (exec loadTheme s)) ↔
   "theme-option" ∈ DOMTokenList.tokens (saved s)).
Proof.
  split; [|split; [|split]].
  - destruct (init_cases s) as [(tg & dd & Htg & Hdd) | [Heq Hmiss]].
    + unfold exec at 1. rewrite (init_with_controls tg dd) by done.
      by rewrite Htg, Hdd, exec_loadTheme.
    + unfold exec at 1. rewrite Heq, loadTheme_run. cbn.
      destruct (getElementById "themeToggle" (document s)),
               (getElementById "themeDropdown" (document s));
        by rewrite ?app_nil_r.
  - apply NoDup_positions.
  - intros n. rewrite elem_of_querySelectorAll, exec_loadTheme.
    cbn [document with_document].
    rewrite themed_is_live, themed_element_at. unfold element_at.
    destruct (slots (document s) !! S n) as [sl|]; cbn;
      [|split; intros (e & ? & _); done].
    destruct (sync_slot_frame (JString (saved s)) sl)
      as (_ & _ & _ & _ & _ & Hcls).
    split.
    + intros (e & [= <-] & Hlive & Hc). rewrite Hcls in Hc by done. eauto.
    + intros (e & [= <-] & Hlive & Hc). eexists. split; [done|].
      by rewrite Hcls.
  - rewrite elem_of_querySelectorAll, exec_loadTheme.
    cbn [document with_document]. rewrite themed_is_live.
    rewrite <- TokenFacts.contains_true.
    rewrite <- (themed_body_has_class (JString (saved s)) (document s))
      by done.
    unfold element_at, slots. cbn [lookup list_lookup fmap option_fmap
      option_map elem].
    split; [by intros (e & [= <-] & _ & Hc) | intros Hc; by eexists].
Qed.

(** ** The year element *)

Lemma climb_lt cur before (i : nat) :
  i ∈ climb cur before → (i < length before)%nat.
Proof.
  revert cur. induction before as [|sl before IH]; intros cur; cbn [climb];
    [by rewrite elem_of_nil|].
  destruct (live sl && (depth sl <? cur)).
  - rewrite elem_of_cons. intros [-> | Hin]; [cbn; lia|].
    apply IH in Hin. cbn. lia.
  - intros Hin. apply IH in Hin. cbn. lia.
Qed.

(** Walking up from an element, one reaches the element [sl] before it
    exactly when [sl] lies less deep than the element and than every
    element of the document between the two. *)
Lemma climb_reaches cur xs sl zs :
  live sl = true →
  length zs ∈ climb cur (xs ++ sl :: zs)
  ↔ (depth sl < cur)%nat ∧
    Forall (λ x, live x = true → (depth sl < depth x)%nat) xs.
Proof.
  intros Hlive. revert cur. induction xs as [|x xs IH]; intros cur.
  - cbn [app climb]. rewrite Hlive. cbn [andb].
    destruct (depth sl <? cur) eqn:Hlt.
    + apply Nat.ltb_lt in Hlt.
      split; [intros _; split; [done | constructor] | intros _; left].
    + apply Nat.ltb_ge in Hlt. split.
      * intros Hin. apply climb_lt in Hin. lia.
      * intros [? _]. lia.
  - cbn [app climb]. rewrite Forall_cons.
    destruct (live x && (depth x <? cur)) eqn:Hx.
    + apply andb_true_iff in Hx as [Hlx Hdx]. apply Nat.ltb_lt in Hdx.
      rewrite elem_of_cons, IH, length_app. cbn [length]. split.
      * intros [Heq | [Hd Hall]]; [lia|]. split; [lia|]. by split.
      * intros (Hd & Hx & Hall). right. split; [by apply Hx | done].
    + rewrite IH. apply andb_false_iff in Hx. split.
      * intros [Hd Hall]. split; [done|]. split; [|done]. intros Hlx.
        destruct Hx as [Hx | Hx]; [congruence|].
        apply Nat.ltb_ge in Hx. lia.
      * intros (Hd & _ & Hall). done.
Qed.

Lemma kill_below_lookup dy after m sl :
  after !! m = Some sl → live sl = true →
  ∃ sl', kill_below dy after !! m = Some sl' ∧
         (live sl' = false
          ↔ Forall (λ x, live x = true → (dy < depth x)%nat)
                   (take (S m) after)).
Proof.
  revert m. induction after as [|x after IH]; intros m Hm Hlive; [done|].
  cbn [kill_below]. destruct (live x) eqn:Hlx.
  - destruct (dy <? depth x) eqn:Hd.
    + apply Nat.ltb_lt in Hd. destruct m as [|m].
      * injection Hm as <-. exists (kill x). split; [done|].
        cbn [take]. rewrite take_0. split; [intros _ | done].
        by repeat constructor.
      * cbn in Hm. destruct (IH m Hm Hlive) as (sl' & Hsl' & Hiff).
        exists sl'. split; [done|]. rewrite Hiff.
        change (take (S (S m)) (x :: after)) with (x :: take (S m) after).
        rewrite Forall_cons. tauto.
    + apply Nat.ltb_ge in Hd. exists sl. split; [done|].
      split; [congruence|]. intros Hall.
      change (take (S m) (x :: after)) with (x :: take m after) in Hall.
      apply Forall_cons in Hall as [Hx _]. specialize (Hx Hlx). lia.
  - destruct m as [|m]; [injection Hm as <-; congruence|]. cbn in Hm.
    destruct (IH m Hm Hlive) as (sl' & Hsl' & Hiff).
    exists sl'. split; [done|]. rewrite Hiff.
    change (take (S (S m)) (x :: after)) with (x :: take (S m) after).
    rewrite Forall_cons. split; [intros H; split; [congruence | done]|].
    by intros [_ H].
Qed.

Lemma elem_of_ancestors d j sl (k : nat) :
  inner d !! j = Some sl →
  S k ∈ ancestors d (S j)
  ↔ k ∈ climb (depth sl) (reverse (take j (inner d))).
Proof.
  intros Hj. cbn [ancestors]. rewrite Hj, elem_of_app, list_elem_of_fmap.
  rewrite list_elem_of_singleton. split.
  - intros [(i & [= ->] & Hi) | ?]; done.
  - intros Hk. left. eauto.
Qed.

(** The elements that leave the document when the children of [y] are
    removed are those that have [y] among their ancestors. *)
Lemma is_live_detach_children y d n :
  is_live d y = true →
  is_live (detach_children y d) n
  = is_live d n && bool_decide (y ∉ ancestors d n).
Proof.
  intros Hy. destruct n as [|j].
  { cbn [ancestors]. rewrite bool_decide_eq_true_2 by apply not_elem_of_nil.
    by destruct y. }
  unfold is_live.
  change (slots (detach_children y d) !! S j)
    with (inner (detach_children y d) !! j).
  change (slots d !! S j) with (inner d !! j).
  destruct y as [|k]; cbn [detach_children inner].
  { rewrite list_lookup_fmap. cbn [ancestors].
    destruct (inner d !! j) as [sl|]; [|done]. cbn.
    rewrite bool_decide_eq_false_2, andb_false_r; [done|].
    intros Hnot. apply Hnot, elem_of_app. right. left. }
  unfold is_live in Hy. change (slots d !! S k) with (inner d !! k) in Hy.
  destruct (inner d !! k) as [sly|] eqn:Hk; [|done]. cbn [inner].
  pose proof (lookup_lt_Some _ _ _ Hk) as Hlen.
  destruct (decide (j < S k)) as [Hlt|Hge].
  - rewrite lookup_app_l by (rewrite length_take; lia).
    rewrite lookup_take_lt by done.
    destruct (inner d !! j) as [sl|] eqn:Hj; [|done].
    rewrite bool_decide_eq_true_2, andb_true_r; [done|].
    rewrite (elem_of_ancestors d j sl k Hj). intros Hin.
    apply climb_lt in Hin. rewrite length_reverse, length_take in Hin. lia.
  - rewrite lookup_app_r by (rewrite length_take; lia).
    rewrite length_take.
    replace (S k `min` length (inner d)) with (S k) by lia.
    destruct (inner d !! j) as [sl|] eqn:Hj.
    2:{ cbn [ancestors]. rewrite Hj.
        destruct (kill_below (depth sly) (drop (S k) (inner d)) !! (j - S k))
          as [sl'|] eqn:Hsl'; [|done].
        apply lookup_lt_Some in Hsl'. apply lookup_ge_None in Hj.
        pose proof (f_equal length
          (kill_below_depth (depth sly) (drop (S k) (inner d)))) as Hl.
        rewrite !length_fmap, length_drop in Hl. lia. }
    assert (Hm : drop (S k) (inner d) !! (j - S k) = Some sl).
    { rewrite lookup_drop. by replace (S k + (j - S k)) with j by lia. }
    destruct (live sl) eqn:Hlive.
    2:{ cbn [andb].
        destruct (kill_below (depth sly) (drop (S k) (inner d)) !! (j - S k))
          as [sl'|] eqn:Hsl'; [|done].
        destruct (live sl') eqn:Hlive'; [|done].
        destruct (kill_below_live _ _ _ _ Hsl' Hlive') as (sl0 & Hsl0 & Hl0).
        congruence. }
    cbn [andb].
    destruct (kill_below_lookup (depth sly) _ _ _ Hm Hlive)
      as (sl' & -> & Hiff).
    assert (Hpath : reverse (take j (inner d))
                    = reverse (take (j - S k) (drop (S k) (inner d)))
                      ++ sly :: reverse (take k (inner d))).
    { replace j with (S k + (j - S k)) at 1 by lia.
      rewrite <- take_take_drop, (take_S_r _ _ _ Hk).
      by rewrite !reverse_app, reverse_singleton. }
    assert (Hreach : S k ∈ ancestors d (S j) ↔ live sl' = false).
    { rewrite (elem_of_ancestors d j sl k Hj), Hpath, Hiff.
      rewrite (take_S_r _ _ _ Hm), Forall_app, Forall_singleton.
      replace k with (length (reverse (take k (inner d)))) at 1
        by (rewrite length_reverse, length_take; lia).
      rewrite climb_reaches by done. rewrite Forall_reverse. tauto. }
    destruct (live sl').
    + rewrite bool_decide_eq_true_2; [done|]. rewrite Hreach. congruence.
    + rewrite bool_decide_eq_false_2; [done|]. intros Hnot.
      by apply Hnot, Hreach.
Qed.

Lemma climb_fmap (g : Slot → Slot) cur l :
  (∀ sl, depth (g sl) = depth sl ∧ live (g sl) = live sl) →
  climb cur (g <$> l) = climb cur l.
Proof.
  intros Hg. revert cur. induction l as [|sl l IH]; intros cur; [done|].
  cbn [fmap list_fmap climb]. destruct (Hg sl) as [-> ->].
  rewrite length_fmap. by rewrite !IH.
Qed.

Lemma ancestors_themed theme d n :
  ancestors (themed theme d) n = ancestors d n.
Proof.
  destruct n as [|j]; [done|]. unfold themed. cbn [ancestors inner].
  rewrite list_lookup_fmap.
  destruct (inner d !! j) as [sl|]; [|done]. cbn.
  destruct (sync_slot_frame theme sl) as (-> & _).
  rewrite <- fmap_take, <- fmap_reverse, climb_fmap; [done|].
  intros sl0. by destruct (sync_slot_frame theme sl0) as (-> & -> & _).
Qed.

Lemma themed_text theme d n :
  text <$> element_at (themed theme d) n = text <$> element_at d n.
Proof.
  unfold element_at. rewrite themed_slot. unfold set_body_className.
  rewrite slots_update_element, list_lookup_alter.
  case_decide; [subst n|]; destruct (slots d !! _) as [sl|]; try done; cbn.
  - by destruct (sync_slot_frame theme
         (on_elem (with_className (λ _, ToString theme)) sl))
      as (_ & _ & _ & _ & -> & _).
  - by destruct (sync_slot_frame theme sl) as (_ & _ & _ & _ & -> & _).
Qed.

(** X5. On a page with both controls, [init] gives the first element of
    the document whose id is [year] the decimal current year as its
    text.  The children of that element leave the document: the
    elements that are in the document afterwards are those that were in
    it and do not have the year element among their ancestors.  No
    other element's text changes.  Without such an element no text
    changes and no element leaves the document. *)
Theorem init_writes_year tg dd s :
  getElementById "themeToggle" (document s) = Some tg →
  getElementById "themeDropdown" (document s) = Some dd →
  match getElementById "year" (document s) with
  | Some y =>
      text <$> element_at (document (exec init s)) y
      = Some (pretty (year_now s)) ∧
      (∀ n, is_live (document (exec init s)) n
            = is_live (document s) n
              && bool_decide (y ∉ ancestors (document s) n)) ∧
      (∀ n, n ≠ y →
            text <$> element_at (document (exec init s)) n
            = text <$> element_at (document s) n)
  | None =>
      ∀ n, text <$> element_at (document (exec init s)) n
           = text <$> element_at (document s) n ∧
           is_live (document (exec init s)) n = is_live (document s) n
  end.
Proof.
  intros Htg Hdd. unfold exec.
  rewrite (init_with_controls tg dd) by done. cbn [snd document].
  destruct (getElementById "year" (document s)) as [y|] eqn:Hy.
  - apply getElementById_Some in Hy as (e & He & Hlive & _).
    split; [|split].
    + rewrite element_at_set_textContent, decide_True by done.
      destruct (themed_is_Some (JString (saved s)) y (document s))
        as [e' ->]; [by eexists | done].
    + intros n. unfold set_textContent. rewrite is_live_update.
      rewrite is_live_detach_children by (by rewrite themed_is_live).
      by rewrite themed_is_live, ancestors_themed.
    + intros n Hn. rewrite element_at_set_textContent.
      rewrite decide_False by done. apply themed_text.
  - intros n. split; [apply themed_text | apply themed_is_live].
Qed.

(** ** Clicks, state by state *)

Lemma fired_on_plain_prefix tg dd opts pre ts :
  Forall (plain tg dd opts) pre →
  fired_on (wiring tg dd opts) (map TNode pre ++ ts)
  = fired_on (wiring tg dd opts) ts.
Proof.
  induction 1 as [|n pre Hn Hpre IH]; [done|].
  cbn [map app fired_on]. rewrite (listeners_on_plain _ _ _ _ Hn). cbn.
  apply IH.
Qed.

Lemma listeners_on_options_in dd opts o :
  NoDup opts → o ∈ opts →
  listeners_on (TNode o) (map (λ o, (TNode o, OnOptionClick dd)) opts)
  = [OnOptionClick dd].
Proof.
  induction 1 as [|x opts Hx Hnd IH]; intros Hin; [by apply elem_of_nil in Hin|].
  cbn [map]. rewrite listeners_on_cons. case_decide as Heq.
  - injection Heq as ->. rewrite listeners_on_options; [done|].
    intros o' Ho' [= ->]. done.
  - apply elem_of_cons in Hin as [-> | Hin]; [done | by apply IH].
Qed.

Lemma listeners_on_option tg dd opts o :
  NoDup opts → o ∈ opts → o ≠ tg → o ≠ dd →
  listeners_on (TNode o) (wiring tg dd opts) = [OnOptionClick dd].
Proof.
  intros Hnd Hin Htg Hdd. unfold wiring. cbn [app].
  rewrite !listeners_on_cons.
  rewrite decide_False by congruence. rewrite decide_False by done.
  rewrite decide_False by congruence.
  by apply listeners_on_options_in.
Qed.

Lemma click_on_path n path s :
  click_path (document s) n = Some path →
  exec (click n) s
  = replay (fired_on (listeners s) (map TNode path ++ [TDocument])) s.
Proof. intros Hp. by rewrite click_replay, Hp. Qed.


(** What the listener of a theme option does, whatever the option
    carries. *)
Lemma option_listener_effect dd this s :
  document (exec (run_listener (OnOptionClick dd) this) s)
  = update_element dd (with_className (DOMTokenList.remove "open"))
      (document (exec (applyTheme (this_dataset_theme this s)) s)) ∧
  options_synced (this_dataset_theme this s)
    (document (exec (run_listener (OnOptionClick dd) this) s)) ∧
  dropdown_open dd (exec (run_listener (OnOptionClick dd) this) s) = false ∧
  localStorage (exec (run_listener (OnOptionClick dd) this) s)
  = localStorage (exec (setTheme (this_dataset_theme this s)) s) ∧
  calls (exec (run_listener (OnOptionClick dd) this) s)
  = calls s ++ hooks_present (window s) ∧
  listeners (exec (run_listener (OnOptionClick dd) this) s) = listeners s.
Proof.
  unfold exec at 1 3 4 5 7 8. rewrite run_option_click. cbn [snd].
  split; [cbn; by rewrite setTheme_document, exec_applyTheme|].
  split.
  { cbn [document with_document]. rewrite setTheme_document.
    apply options_synced_update; [|apply themed_options_synced].
    intros c cl Hc. by apply TokenFacts.contains_remove_ne. }
  split; [apply closed_dropdown|]. split; [done|].
  split; [|cbn; apply setTheme_listeners].
  cbn. by destruct (setTheme_frame (this_dataset_theme this s) s)
    as (_ & -> & _).
Qed.

(** X7. On a page with both controls, in every state reached by clicks
    on elements after initialisation, take a click whose path, from the
    target upwards, passes through plain elements only, then through an
    element [o] that got a theme-option listener and carries the
    data-theme [t], then through plain elements only, then through the
    dropdown; plain meaning not the toggle, not the dropdown and without
    a theme-option listener.  Provided neither the toggle nor the
    dropdown got a theme-option listener and the store accepts the
    write, the click does what the listener of [o] does and is stopped
    at the dropdown: the store holds [t], the page is the one
    [applyTheme(t)] produces with the token [open] removed from the
    dropdown, the theme options are marked by [t], the dropdown is
    closed and each hook that is a function has been called once more.
    The body class is [t] provided [t] does not contain the class token
    [theme-option] and the dropdown is not the body. *)
Theorem option_click_end_to_end tg dd opts s0 s n pre o mid rest e t :
  listeners s0 = [] →
  getElementById "themeToggle" (document s0) = Some tg →
  getElementById "themeDropdown" (document s0) = Some dd →
  opts = querySelectorAll "theme-option" (document (exec loadTheme s0)) →
  reachable s0 s →
  click_path (document s) n = Some (pre ++ o :: mid ++ dd :: rest) →
  Forall (plain tg dd opts) pre → Forall (plain tg dd opts) mid →
  o ∈ opts → tg ∉ opts → dd ∉ opts →
  element_at (document s) o = Some e → data_theme e = Some t →
  writable s = true →
  exec (click n) s = exec (run_listener (OnOptionClick dd) (TNode o)) s ∧
  stored_theme (exec (click n) s) = Some t ∧
  document (exec (click n) s)
  = update_element dd (with_className (DOMTokenList.remove "open"))
      (document (exec (applyTheme (JString t)) s)) ∧
  ("theme-option" ∉ DOMTokenList.tokens t → dd ≠ 0 →
   body_className (document (exec (click n) s)) = t) ∧
  options_synced (JString t) (document (exec (click n) s)) ∧
  dropdown_open dd (exec (click n) s) = false ∧
  calls (exec (click n) s) = calls s ++ hooks_present (window s).
Proof.
  intros Hnil Htg Hdd -> Hreach Hp Hpre Hmid Ho Htgo Hddo He Ht Hw.
  destruct (reachable_wired tg dd s0 s Hnil Htg Hdd Hreach)
    as (Hls & Hne & _).
  assert (Hclick : exec (click n) s
                   = exec (run_listener (OnOptionClick dd) (TNode o)) s).
  { rewrite (click_on_path _ _ _ Hp), Hls, path_targets,
      fired_on_plain_prefix by done.
    cbn [fired_on].
    rewrite listeners_on_option;
      [|apply NoDup_positions | done | by intros -> | by intros ->].
    cbn [map existsb stops orb app].
    rewrite map_app. cbn [map]. rewrite <- app_assoc. cbn [app].
    rewrite fired_on_plain_prefix by done. cbn [fired_on].
    rewrite listeners_on_dropdown by done. reflexivity. }
  rewrite Hclick. split; [done|].
  assert (Hthis : this_dataset_theme (TNode o) s = JString t).
  { unfold this_dataset_theme, dataset_theme. by rewrite He, Ht. }
  destruct (option_listener_effect dd (TNode o) s)
    as (Hdoc & Hsync & Hclosed & Hst & Hcalls & _).
  rewrite Hthis in Hdoc, Hsync, Hst.
  split; [|split; [done|split; [|done]]].
  - unfold stored_theme. rewrite Hst, setTheme_storage_eq, Hw. cbn.
    apply lookup_insert_eq.
  - intros Htag Hd0. rewrite Hdoc. unfold body_className.
    rewrite body_update_inner, exec_applyTheme by done.
    by apply (themed_body_untagged (JString t)).
Qed.

(** ** What clicks leave alone *)






(** ** Invariants of a page load *)

Lemma steady_tokens_but_open (l : list string) :
  filter (λ c, c ≠ "is-active" ∧ c ≠ "open") (filter (λ c, c ≠ "open") l)
  = filter (λ c : string, c ≠ "is-active" ∧ c ≠ "open") l.
Proof.
  induction l as [|x l IH]; [done|].
  rewrite (filter_cons (λ c, c ≠ "open") x). case_decide as Hx.
  - by rewrite !(filter_cons _ x), IH.
  - rewrite IH, (filter_cons _ x l). by rewrite decide_False by tauto.
Qed.

Lemma steady_tokens_remove cls :
  steady_tokens (DOMTokenList.remove "open" cls) = steady_tokens cls.
Proof.
  unfold steady_tokens. rewrite TokenFacts.tokens_remove.
  apply steady_tokens_but_open.
Qed.

Lemma steady_tokens_toggle cls :
  steady_tokens (DOMTokenList.toggle "open" cls) = steady_tokens cls.
Proof.
  unfold steady_tokens.
  rewrite TokenFacts.tokens_toggle by apply TokenFacts.token_open.
  destruct (DOMTokenList.contains "open" cls);
    [apply steady_tokens_but_open|].
  rewrite filter_app, filter_cons_False by tauto.
  by rewrite filter_nil, app_nil_r.
Qed.

Lemma steady_body_update dd (f : string → string) d :
  (∀ cls, steady_tokens (f cls) = steady_tokens cls) →
  steady_tokens (body_className (update_element dd (with_className f) d))
  = steady_tokens (body_className d).
Proof. intros Hf. destruct dd; [apply Hf | done]. Qed.

Lemma init_marks_agree s : marks_agree (exec init s).
Proof.
  exists (JString (saved s)).
  destruct (init_cases s) as [(tg & dd & Htg & Hdd) | [Heq _]].
  - unfold exec. rewrite (init_with_controls tg dd) by done.
    cbn [snd document].
    destruct (getElementById "year" (document s)) as [y|].
    + split; [apply options_synced_set_textContent, themed_options_synced|].
      rewrite body_className_set_textContent. apply themed_body_steady.
    + split; [apply themed_options_synced | apply themed_body_steady].
  - unfold exec. rewrite Heq, loadTheme_run. cbn [snd document with_document].
    split; [apply themed_options_synced | apply themed_body_steady].
Qed.

Lemma listener_marks_agree l this s :
  marks_agree s → marks_agree (exec (run_listener l this) s).
Proof.
  intros (theme & Hsync & Hbody). destruct l as [d | d | | d].
  - exists theme. split.
    + apply options_synced_update; [|done].
      intros c cl Hc.
      by apply TokenFacts.contains_toggle_ne; [apply TokenFacts.token_open|].
    + cbn. rewrite <- Hbody.
      apply steady_body_update, steady_tokens_toggle.
  - exists theme. split.
    + apply options_synced_update; [|done].
      intros c cl Hc. by apply TokenFacts.contains_remove_ne.
    + cbn. rewrite <- Hbody.
      apply steady_body_update, steady_tokens_remove.
  - by exists theme.
  - exists (this_dataset_theme this s).
    destruct (option_listener_effect d this s) as (Hdoc & ? & _).
    split; [done|]. rewrite Hdoc, exec_applyTheme.
    rewrite steady_body_update by apply steady_tokens_remove.
    apply themed_body_steady.
Qed.

Lemma replay_marks_agree fs s : marks_agree s → marks_agree (replay fs s).
Proof.
  revert s. induction fs as [|[t l] fs IH]; intros s Hs; [done|].
  apply (IH (exec (run_listener l t) s)). by apply listener_marks_agree.
Qed.

(** X9. In every state of a page load, after initialisation and after
    any clicks on elements, with or without the dropdown controls, the
    marks agree with the body class: there is a theme such that every
    theme option in the document is marked active exactly when it
    carries that theme, and such that the class tokens of the body,
    [is-active] and [open] aside, are the class tokens of that theme's
    string, those two aside, in the same order. *)
Theorem marks_always_agree s0 s :
  reachable s0 s → marks_agree s.
Proof.
  induction 1 as [|s n Hreach IH].
  - apply init_marks_agree.
  - rewrite click_replay.
    destruct (click_path (document s) n); [|done].
    by apply replay_marks_agree.
Qed.

Lemma init_storage s : localStorage (exec init s) = localStorage s.
Proof.
  destruct (init_cases s) as [(tg & dd & Htg & Hdd) | [Heq _]].
  - unfold exec. by rewrite (init_with_controls tg dd).
  - unfold exec. by rewrite Heq, loadTheme_run.
Qed.

Lemma listener_other_keys l this s k :
  k ≠ STORAGE_KEY →
  items (localStorage (exec (run_listener l this) s)) !! k
  = items (localStorage s) !! k.
Proof.
  intros Hk. destruct l as [d | d | | d]; try done.
  destruct (option_listener_effect d this s) as (_ & _ & _ & -> & _).
  rewrite setTheme_storage_eq. destruct (writable s); [|done].
  cbn. by rewrite lookup_insert_ne.
Qed.

Lemma replay_other_keys fs s k :
  k ≠ STORAGE_KEY →
  items (localStorage (replay fs s)) !! k = items (localStorage s) !! k.
Proof.
  intros Hk. revert s. induction fs as [|[t l] fs IH]; intros s; [done|].
  change (replay ((t, l) :: fs) s)
    with (replay fs (exec (run_listener l t) s)).
  rewrite IH. by apply listener_other_keys.
Qed.

(** X10. In every state of a page load, each entry of the store under a
    key other than ['portal-theme'] is as it was when the page was
    loaded: the script writes its own key only. *)
Theorem other_keys_untouched s0 s k :
  reachable s0 s → k ≠ STORAGE_KEY →
  items (localStorage s) !! k = items (localStorage s0) !! k.
Proof.
  intros Hreach Hk. induction Hreach as [|s n Hreach IH].
  - by rewrite init_storage.
  - rewrite click_replay.
    destruct (click_path (document s) n); [|done].
    rewrite replay_other_keys by done. apply IH.
Qed.

Lemma undefined_untagged :
  "theme-option" ∉ DOMTokenList.tokens (ToString JUndefined).
Proof. compute_done. Qed.

(** X11. The listener of a theme option that has no data-theme attribute
    selects [undefined]: the body class becomes ["undefined"], a store
    that accepts the write holds ["undefined"], the theme options in
    the document that are marked active are exactly those without a
    data-theme attribute, and a later page load applies the class
    ["undefined"]. *)
Theorem option_without_data_theme dd o e s :
  element_at (document s) o = Some e →
  data_theme e = None →
  body_className
    (document (exec (run_listener (OnOptionClick dd) (TNode o)) s))
  = "undefined" ∧
  (∀ n e', element_at
             (document (exec (run_listener (OnOptionClick dd) (TNode o)) s))
             n = Some e' →
           is_live
             (document (exec (run_listener (OnOptionClick dd) (TNode o)) s))
             n = true →
           has_class "theme-option" e' = true →
           (has_class "is-active" e' = true ↔ data_theme e' = None)) ∧
  (writable s = true →
   stored_theme (exec (run_listener (OnOptionClick dd) (TNode o)) s)
   = Some "undefined" ∧
   body_className
     (document
        (exec loadTheme (exec (run_listener (OnOptionClick dd) (TNode o)) s)))
   = "undefined").
Proof.
  intros He Hnone.
  assert (Hthis : this_dataset_theme (TNode o) s = JUndefined).
  { unfold this_dataset_theme, dataset_theme. by rewrite He, Hnone. }
  destruct (option_listener_effect dd (TNode o) s)
    as (Hdoc & Hsync & _ & Hst & _).
  rewrite Hthis in Hdoc, Hsync, Hst.
  split; [|split].
  - rewrite Hdoc, exec_applyTheme. cbn [document with_document].
    pose proof (themed_body_untagged JUndefined (document s)
                  undefined_untagged) as Hb.
    unfold body_className in *. destruct dd as [|k]; [|done].
    cbn [update_element body with_className className]. by rewrite Hb.
  - intros n e' He' Hlive Htag. rewrite (Hsync n e' He' Hlive Htag).
    unfold dataset_theme. destruct (data_theme e'); split; congruence.
  - intros Hw.
    assert (Hstored :
      stored_theme (exec (run_listener (OnOptionClick dd) (TNode o)) s)
      = Some "undefined").
    { unfold stored_theme. rewrite Hst, setTheme_storage_eq, Hw. cbn.
      apply lookup_insert_eq. }
    split; [done|]. rewrite exec_loadTheme. cbn [document with_document].
    assert (Hsaved :
      saved (exec (run_listener (OnOptionClick dd) (TNode o)) s)
      = "undefined").
    { unfold saved. unfold stored_theme in Hstored. rewrite Hstored.
      rewrite Hst, setTheme_storage_eq, Hw. cbn.
      unfold writable in Hw.
      by destruct (denied (localStorage s)). }
    rewrite Hsaved. apply (themed_body_untagged (JString "undefined")).
    apply undefined_untagged.
Qed.

End More.

(** ** More on the theme and the dropdown *)

Section Frames.

Context {World : Type}.
Implicit Types (s : @State World) (e : Element) (theme : JSValue).

#[local] Arguments themed : simpl never.
#[local] Arguments saved : simpl never.

Lemma opening_run trs b :
  dropdown_run trs b = true → b = true ∨ ToggleClick ∈ trs.
Proof.
  revert b. induction trs as [|tr trs IH]; intros b Hrun; [by left|].
  destruct (IH _ Hrun) as [Hstep | Hin]; [|right; by right].
  destruct tr; try done. right. left.
Qed.

(** X12. On a page with both controls, in every state reached by clicks
    on elements after initialisation, a click that finds the dropdown
    closed and leaves it open is a click on an element of the document
    that has the toggle on its path: nothing but the toggle opens the
    dropdown. *)
Theorem dropdown_opens_by_toggle_only tg dd opts s0 s n :
  listeners s0 = [] →
  getElementById "themeToggle" (document s0) = Some tg →
  getElementById "themeDropdown" (document s0) = Some dd →
  opts = querySelectorAll "theme-option" (document (exec loadTheme s0)) →
  reachable s0 s →
  dropdown_open dd s = false →
  dropdown_open dd (exec (click n) s) = true →
  ∃ path, click_path (document s) n = Some path ∧ tg ∈ path.
Proof.
  intros Hnil Htg Hdd -> Hreach Hclosed Hopen.
  pose proof (reachable_wired tg dd s0 s Hnil Htg Hdd Hreach) as Hw.
  unfold exec in Hopen. rewrite click_run in Hopen.
  destruct (click_path (document s) n) as [path|]; [|cbn in Hopen; congruence].
  exists path. split; [done|].
  change (dropdown_open dd (exec (dispatch path) s) = true) in Hopen.
  rewrite (dispatch_dropdown tg dd _ path s Hw), Hclosed in Hopen.
  apply opening_run in Hopen as [? | Hin]; [done|].
  apply toggle_fired, elem_of_app in Hin as [Hin | Hin].
  - change (map ?f ?l) with (f <$> l) in Hin.
    by apply list_elem_of_fmap in Hin as (k & [= <-] & Hk).
  - by apply list_elem_of_singleton in Hin.
Qed.

(** X13. [applyTheme] touches the body class and the token [is-active]
    and nothing else: the store, the listeners, the hooks' log and
    state are as before; every element keeps its position, its
    ancestors, its id, data-theme and text and stays in or out of the
    document as it was; and every element inside the body keeps every
    class token other than [is-active]. *)
Theorem applyTheme_touches_marks_only theme s :
  localStorage (exec (applyTheme theme) s) = localStorage s ∧
  listeners (exec (applyTheme theme) s) = listeners s ∧
  calls (exec (applyTheme theme) s) = calls s ∧
  world (exec (applyTheme theme) s) = world s ∧
  length (slots (document (exec (applyTheme theme) s)))
  = length (slots (document s)) ∧
  ∀ n e0, element_at (document s) n = Some e0 →
    ∃ e, element_at (document (exec (applyTheme theme) s)) n = Some e ∧
         el_id e = el_id e0 ∧
         data_theme e = data_theme e0 ∧
         text e = text e0 ∧
         is_live (document (exec (applyTheme theme) s)) n
         = is_live (document s) n ∧
         ancestors (document (exec (applyTheme theme) s)) n
         = ancestors (document s) n ∧
         (n ≠ 0 → ∀ c, c ≠ "is-active" → has_class c e = has_class c e0).
Proof.
  rewrite exec_applyTheme.
  split; [done|]. split; [done|]. split; [done|]. split; [done|].
  cbn [document with_document]. split.
  - rewrite slots_themed, length_fmap. unfold set_body_className.
    apply length_slots_update.
  - intros n e0 He0. rewrite themed_is_live, ancestors_themed.
    unfold element_at in *. rewrite themed_slot.
    unfold set_body_className. rewrite slots_update_element.
    rewrite list_lookup_alter. case_decide as Hn; [subst n|].
    + destruct (slots (document s) !! 0) as [sl|]; [|done].
      injection He0 as <-. cbn [fmap option_fmap option_map].
      eexists. split; [done|].
      destruct (sync_slot_frame theme
                  (on_elem (with_className (λ _, ToString theme)) sl))
        as (_ & _ & -> & -> & -> & _).
      done.
    + destruct (slots (document s) !! n) as [sl|]; [|done].
      injection He0 as <-. cbn [fmap option_fmap option_map].
      eexists. split; [done|].
      destruct (sync_slot_frame theme sl) as (_ & _ & -> & -> & -> & Hc).
      repeat (split; [done|]). intros _. apply Hc.
Qed.

(** X14. When the read does not throw and a non-empty string [v] is
    stored under the key, [loadTheme] returns normally and does what
    [applyTheme(v)] does, whether or not any option carries [v]: the
    theme options are marked by [v], the class tokens of the body are
    those of [v], [is-active] aside, and the body class is [v] itself
    provided [v] does not contain the class token [theme-option]. *)
Theorem loadTheme_restores (v : string) s :
  denied (localStorage s) = false →
  stored_theme s = Some v →
  v ≠ "" →
  outcome loadTheme s = Normal tt ∧
  exec loadTheme s = exec (applyTheme (JString v)) s ∧
  options_synced (JString v) (document (exec loadTheme s)) ∧
  filter (λ c, c ≠ "is-active")
    (DOMTokenList.tokens (body_className (document (exec loadTheme s))))
  = filter (λ c, c ≠ "is-active") (DOMTokenList.tokens v) ∧
  ("theme-option" ∉ DOMTokenList.tokens v →
   body_className (document (exec loadTheme s)) = v).
Proof.
  intros Hden Hv Hne.
  assert (Hsaved : saved s = v).
  { unfold saved. unfold stored_theme in Hv. rewrite Hden, Hv. cbn.
    by rewrite bool_decide_eq_false_2. }
  rewrite exec_applyTheme. unfold outcome, exec.
  rewrite loadTheme_run, Hsaved. cbn [fst snd document with_document].
  split; [done|]. split; [done|].
  split; [apply themed_options_synced|]. split.
  - rewrite themed_body. destruct (has_class "theme-option" _); [|done].
    apply tokens_but_active.
  - apply (themed_body_untagged (JString v)).
Qed.

End Frames.

(** ** Witnesses of the further properties *)

Lemma selection_survives_reload_witness :
  body_className
    (document
       (exec loadTheme
          (Sample.load Sample.bare_page
             (localStorage
                (exec (setTheme (JString "theme-dark")) Sample.ready)))))
  = "theme-dark".
Proof.
  destruct (selection_survives_reload (JString "theme-dark") Sample.ready
              (Sample.load Sample.bare_page
                 (localStorage
                    (exec (setTheme (JString "theme-dark")) Sample.ready)))
              eq_refl) as [_ Hbody].
  apply Hbody. compute_done.
Defined.

Lemma init_writes_year_witness :
  text <$> element_at (document (exec init Visit.footer)) 3 = Some "2026" ∧
  is_live (document (exec init Visit.footer)) 4 = false ∧
  is_live (document (exec init Visit.footer)) 5 = true.
Proof.
  destruct (init_writes_year 1 2 Visit.footer eq_refl eq_refl)
    as (Hyear & Hlive & _).
  split; [exact Hyear|]. split; [exact (Hlive 4) | exact (Hlive 5)].
Defined.


Lemma option_click_end_to_end_witness :
  stored_theme (exec (click 4) Sample.opened) = Some "theme-dark" ∧
  body_className (document (exec (click 4) Sample.opened)) = "theme-dark" ∧
  dropdown_open 2 (exec (click 4) Sample.opened) = false.
Proof.
  destruct (option_click_end_to_end 1 2 [3; 4] Sample.loaded Sample.opened
              4 [] 4 [] [0]
              (mkElement None "theme-option" (Some "theme-dark") "Dark")
              "theme-dark")
    as (_ & Hstored & _ & Hbody & _ & Hclosed & _);
    [reflexivity | reflexivity | reflexivity | reflexivity
    | apply reach_click, reach_init
    | reflexivity
    | constructor | constructor
    | compute_done | compute_done | compute_done
    | reflexivity | reflexivity | reflexivity |].
  split; [exact Hstored|].
  split; [apply Hbody; [compute_done | lia] | exact Hclosed].
Defined.


Lemma marks_always_agree_witness : marks_agree Visit.picked.
Proof.
  apply (marks_always_agree Visit.arrived).
  apply reach_click, reach_click, reach_init.
Defined.

Lemma other_keys_untouched_witness :
  items (localStorage Visit.picked) !! "lang" = Some "ru" ∧
  items (localStorage Visit.picked) !! STORAGE_KEY = Some "theme-dark".
Proof.
  split; [|reflexivity].
  rewrite (other_keys_untouched Visit.arrived Visit.picked "lang");
    [reflexivity | apply reach_click, reach_click, reach_init | done].
Defined.

Lemma option_without_data_theme_witness :
  body_className
    (document (exec (run_listener (OnOptionClick 2) (TNode 4)) Visit.odd))
  = "undefined" ∧
  (λ sl, has_class "is-active" (elem sl))
  <$> slots
        (document (exec (run_listener (OnOptionClick 2) (TNode 4)) Visit.odd))
  = [false; false; false; false; true].
Proof.
  destruct (option_without_data_theme 2 4
              (mkElement None "theme-option" None "Dark") Visit.odd)
    as (Hbody & _); [reflexivity.. |].
  split; [exact Hbody | reflexivity].
Defined.

Lemma dropdown_opens_by_toggle_only_witness :
  dropdown_open 2 Sample.ready = false ∧
  dropdown_open 2 (exec (click 1) Sample.ready) = true ∧
  ∃ path, click_path (document Sample.ready) 1 = Some path ∧ 1 ∈ path.
Proof.
  split; [reflexivity|]. split; [reflexivity|].
  apply (dropdown_opens_by_toggle_only 1 2 [3; 4] Sample.loaded Sample.ready
           1);
    [reflexivity | reflexivity | reflexivity | reflexivity
    | apply reach_init | reflexivity | reflexivity].
Defined.

Lemma loadTheme_restores_witness :
  body_className
    (document (exec loadTheme
                 (Sample.load Sample.portal_page Sample.exhausted)))
  = "theme-dark".
Proof.
  destruct (loadTheme_restores "theme-dark"
              (Sample.load Sample.portal_page Sample.exhausted))
    as (_ & _ & _ & _ & Hbody); [reflexivity | reflexivity | done |].
  apply Hbody. compute_done.
Defined.
